(** * Customer-segmentation pipeline: preprocessing and training

    A shallow embedding of [scripts/preprocess.py] and [scripts/train.py].

    Both scripts are short drivers over pandas and scikit-learn.  The
    driver code (the imputation loop, the duplicate removal, the residual
    fill, the identifier drop, the missing-value check, the metrics
    record) is translated statement by statement.  The pandas operations
    the drivers call are modelled in [Module Pandas] by what they do on a
    column-labelled table; the two scikit-learn estimators are parameters
    of [train_model].  A stage is first a function from the frame
    [read_csv] returned to what the stage writes; its console variant
    adds the lines printed and lets the writes fail.

    A float64 value is an infinity or a finite value, the latter given by
    the rational it stands for ([Qc], whose Leibniz equality is value
    equality); the floating-point NaN, which pandas uses for a missing
    entry, is the separate constructor [NaN].  The one float64 computation
    of the driver code, the mean of the two middle values inside
    [median], is rounded as binary64 rounds. *)

From Stdlib Require Import QArith Qcanon Qabs Qpower.
From Corelib Require PrimFloat FloatOps.
From stdpp Require Import base option list strings numbers sorting gmap.

Local Open Scope Qc_scope.

(** ** The pandas data model *)

Module Pandas.

(** Column types [read_csv] infers, and the two narrower numeric types
    that [select_dtypes] is also asked for. *)
Inductive dtype := float64 | int64 | float32 | int32 | bool_ | object_.

(** A float64 value other than NaN: a finite value, given by the rational
    it stands for, or an infinity.  The two zeros are one value, as they
    are for [==] and for [duplicated]. *)
Inductive float := Finite (q : Qc) | PosInf | NegInf.
Coercion Finite : Qc >-> float.

(** One entry of a column: missing, a number, or (object columns) text. *)
Inductive cell := NaN | Num (x : float) | Str (s : string).

Record Series := mkSeries { dtype_of : dtype; values : list cell }.

(** A frame: the row labels and the labelled columns, in order. *)
Record DataFrame := mkFrame {
  index : list nat;
  columns : list (string * Series)
}.

Global Instance dtype_eq_dec : EqDecision dtype.
Proof. solve_decision. Defined.
Global Instance float_eq_dec : EqDecision float.
Proof. solve_decision. Defined.
Global Instance cell_eq_dec : EqDecision cell.
Proof. solve_decision. Defined.
Global Instance Series_eq_dec : EqDecision Series.
Proof. solve_decision. Defined.
Global Instance DataFrame_eq_dec : EqDecision DataFrame.
Proof. solve_decision. Defined.

(** [pd.isnull] / [pd.notna] on one entry. *)
Definition isnull (c : cell) : bool :=
  match c with NaN => true | _ => false end.
Definition notna (c : cell) : bool := negb (isnull c).

(** [s.isnull().sum()] *)
Definition isnull_sum (s : Series) : nat :=
  length (filter (λ c, isnull c = true) (values s)).

(** [len(df)], [df.shape[1]] and [df.empty] *)
Definition len (df : DataFrame) : nat := length (index df).
Definition n_columns (df : DataFrame) : nat := length (columns df).
Definition empty_frame (df : DataFrame) : bool :=
  bool_decide (index df = [] ∨ columns df = []).

(** [df.isnull().sum().sum()] *)
Definition isnull_sum_sum (df : DataFrame) : nat :=
  sum_list ((λ c, isnull_sum c.2) <$> columns df).

(** [df[col]]: the column labelled [col]. *)
Fixpoint lookup_col (col : string) (cs : list (string * Series)) : option Series :=
  match cs with
  | [] => None
  | (n, s) :: cs' => if decide (n = col) then Some s else lookup_col col cs'
  end.
Definition getitem (df : DataFrame) (col : string) : option Series :=
  lookup_col col (columns df).

(** [df[col] = s]: replaces the column labelled [col], or appends it. *)
Fixpoint assign_col (col : string) (s : Series) (cs : list (string * Series))
    : list (string * Series) :=
  match cs with
  | [] => [(col, s)]
  | (n, s0) :: cs' =>
      if decide (n = col) then (n, s) :: cs' else (n, s0) :: assign_col col s cs'
  end.
Definition setitem (df : DataFrame) (col : string) (s : Series) : DataFrame :=
  mkFrame (index df) (assign_col col s (columns df)).

(** [df.select_dtypes(include=...).columns] *)
Definition select_dtypes_columns (include : list dtype) (df : DataFrame) : list string :=
  (filter (λ c, dtype_of c.2 ∈ include) (columns df)).*1.

(** The order of float64 values: [x <= y]. *)
Definition float_le (x y : float) : Prop :=
  match x, y with
  | NegInf, _ | _, PosInf => True
  | Finite a, Finite b => a ≤ b
  | _, _ => False
  end.
Global Instance float_le_dec : RelDecision float_le.
Proof. intros [a| |] [b| |]; simpl; apply _. Defined.

(** [2 ** e] *)
Definition pow2 (e : Z) : Q := Qpower 2 e.

(** The integer nearest to [q], the even one of the two on a tie. *)
Definition round_half_even (q : Q) : Z :=
  let n := Qnum q in
  let d := Zpos (Qden q) in
  let fl := (n `div` d)%Z in
  match (2 * (n `mod` d) ?= d)%Z with
  | Lt => fl
  | Gt => (fl + 1)%Z
  | Eq => if Z.even fl then fl else (fl + 1)%Z
  end.

(** The exponent of the leading bit of [q], for [0 < q]: the [e] with
    [2 ** e <= q < 2 ** (e + 1)]. *)
Definition ilog2 (q : Q) : Z :=
  let e := (Z.log2 (Qnum q) - Z.log2 (Zpos (Qden q)))%Z in
  if Qle_bool (pow2 e) q then e else (e - 1)%Z.

(** The float64 nearest to the real number [q] (IEEE 754 binary64, round
    to nearest, ties to even): 53 significant bits, the spacing never
    finer than [2 ** -1074], and an infinity when the rounded value
    reaches [2 ** 1024]. *)
Definition round64 (q : Q) : float :=
  if Qeq_bool q 0 then Finite 0 else
  let a := Qabs q in
  let ulp := pow2 (Z.max (ilog2 a - 52) (-1074)) in
  let r := (inject_Z (round_half_even (a / ulp)) * ulp)%Q in
  if Qle_bool (pow2 1024) r then (if Qle_bool 0 q then PosInf else NegInf)
  else Finite (Q2Qc (if Qle_bool 0 q then r else (- r)%Q)).

(** [x + y] on float64 values; [None] is NaN, the sum of the two
    infinities. *)
Definition float_add (x y : float) : option float :=
  match x, y with
  | Finite a, Finite b => Some (round64 (a + b)%Q)
  | PosInf, NegInf | NegInf, PosInf => None
  | PosInf, _ | _, PosInf => Some PosInf
  | NegInf, _ | _, NegInf => Some NegInf
  end.

(** [x / 2] on float64 values. *)
Definition float_half (x : float) : float :=
  match x with
  | Finite a => round64 (a / 2)%Q
  | PosInf => PosInf
  | NegInf => NegInf
  end.

(** [np.mean] of the two middle values: their sum, halved. *)
Definition mean_of_two (lo hi : float) : cell :=
  match float_add lo hi with
  | Some sum => Num (float_half sum)
  | None => NaN
  end.

(** The numbers of a column, missing entries skipped. *)
Definition dropna_values (s : Series) : list float :=
  omap (λ c, match c with Num x => Some x | _ => None end) (values s).

(** [s.median()]: the middle of the sorted non-missing values; when
    their number is even, [np.mean] of the two middle ones, a float64
    computation; NaN when there is no value. *)
Definition median_of (xs : list float) : cell :=
  let sorted := merge_sort float_le xs in
  let n := length sorted in
  match sorted !! (n / 2)%nat with
  | None => NaN
  | Some hi =>
      if Nat.odd n then Num hi
      else match sorted !! (n / 2 - 1)%nat with
           | Some lo => mean_of_two lo hi
           | None => NaN
           end
  end.
Definition median (s : Series) : cell := median_of (dropna_values s).

(** [s.fillna(v)] and [df.fillna(v)] *)
Definition fill_cell (v c : cell) : cell := if isnull c then v else c.
Definition fillna (v : cell) (s : Series) : Series :=
  mkSeries (dtype_of s) (fill_cell v <$> values s).
Definition fillna_frame (v : cell) (df : DataFrame) : DataFrame :=
  mkFrame (index df) ((λ c, (c.1, fillna v c.2)) <$> columns df).

(** The rows of a frame: entry [i] of every column, in column order. *)
Definition row := list cell.
Definition rows (df : DataFrame) : list row :=
  foldr (λ c acc, zip_with cons (values c.2) acc)
        ((λ _, []) <$> index df) (columns df).

(** [df.duplicated()] (keep='first'): entry [i] says whether row [i]
    equals a row seen before it.  Two missing entries compare equal. *)
Fixpoint duplicated_from (seen : list row) (rs : list row) : list bool :=
  match rs with
  | [] => []
  | r :: rs' =>
      if decide (r ∈ seen) then true :: duplicated_from seen rs'
      else false :: duplicated_from (r :: seen) rs'
  end.
Definition duplicated (df : DataFrame) : list bool := duplicated_from [] (rows df).

(** Boolean indexing [df[mask]]: the rows whose mask entry is true. *)
Fixpoint mask_select {A} (mask : list bool) (l : list A) : list A :=
  match mask, l with
  | b :: mask', x :: l' =>
      if b then x :: mask_select mask' l' else mask_select mask' l'
  | _, _ => []
  end.
Definition boolean_index (mask : list bool) (df : DataFrame) : DataFrame :=
  mkFrame (mask_select mask (index df))
          ((λ c, (c.1, mkSeries (dtype_of c.2) (mask_select mask (values c.2))))
             <$> columns df).

(** [df.drop_duplicates()]: a frame with no row or no column is returned
    as it is; otherwise [df[~df.duplicated()]]. *)
Definition drop_duplicates (df : DataFrame) : DataFrame :=
  if empty_frame df then df else boolean_index (negb <$> duplicated df) df.

(** ['c' in df.columns] and [df.drop('c', axis=1)] *)
Definition has_column (col : string) (df : DataFrame) : bool :=
  bool_decide (col ∈ (columns df).*1).
Definition drop_column (col : string) (df : DataFrame) : DataFrame :=
  mkFrame (index df) (filter (λ c, c.1 ≠ col) (columns df)).

End Pandas.
Import Pandas.

(** ** [scripts/preprocess.py] *)

(** The dtypes the imputation loop selects (line 25). *)
Definition numeric_dtypes : list dtype := [float64; int64; float32; int32].

(** One turn of the loop [for col in numeric_cols] (lines 27-32). *)
Definition impute_col (df : DataFrame) (col : string) : DataFrame :=
  match getitem df col with
  | None => df
  | Some s =>
      if decide (0 < isnull_sum s)%nat then
        let median_val := median s in
        let fill_value := if notna median_val then median_val else Num 0 in
        setitem df col (fillna fill_value s)
      else df
  end.

(** Lines 25-33: fill the numeric columns. *)
Definition imputer (df : DataFrame) : DataFrame :=
  let numeric_cols := select_dtypes_columns numeric_dtypes df in
  foldl impute_col df numeric_cols.

(** Lines 41-48: the residual fill. *)
Definition fallback_fill (df : DataFrame) : DataFrame :=
  let remaining_nan := isnull_sum_sum df in
  if decide (0 < remaining_nan)%nat then fillna_frame (Num 0) df else df.

(** [preprocess_data], from the frame [read_csv] returned to the frame
    handed to [to_csv]. *)
Definition preprocess_data (df : DataFrame) : DataFrame :=
  let df := imputer df in
  let df := drop_duplicates df in
  fallback_fill df.

(** What one turn of the loop does to the column it visits: the value it
    fills with, and the column it leaves. *)
Definition fill_value_of (s : Series) : cell :=
  if notna (median s) then median s else Num 0.
Definition impute_series (s : Series) : Series :=
  if decide (0 < isnull_sum s)%nat then fillna (fill_value_of s) s else s.

(** ** [scripts/train.py] *)

(** How a run of [train_model] can end early: the [ValueError] raised at
    line 37, an exception from one of the two estimators, or an exception
    from writing one of the two files (lines 57-59 and 70-72). *)
Inductive TrainError := NaNValuesDetected | EstimatorFailed | WriteFailed.

Inductive result (A : Type) := Ok (a : A) | Err (e : TrainError).
Arguments Ok {A} a.
Arguments Err {A} e.

(** The error monad of the script: an exception ends the run. *)
Global Instance result_ret : MRet result := λ A a, Ok a.
Global Instance result_bind : MBind result := λ A B k r,
  match r with Ok a => k a | Err e => Err e end.

(** An estimator call that returns nothing has raised. *)
Definition call {A} (o : option A) : result A :=
  match o with Some a => Ok a | None => Err EstimatorFailed end.

(** The values [json.dump] writes for the metrics. *)
Inductive json := JInt (z : Z) | JFloat (x : Qc).

Section train.

(** scikit-learn, as far as [train_model] uses it: the fitted scaler with
    the scaled matrix, the fitted clustering model (from the cluster
    count, [random_state], [n_init] and the matrix), and the model's
    [inertia_] attribute. *)
Context {Scaler Matrix Model : Type}.
Variable fit_transform : DataFrame → option (Scaler * Matrix).
Variable KMeans_fit : Z → Z → nat → Matrix → option Model.
Variable inertia_ : Model → Qc.

(** What a completed run leaves: the pickled pair and the metrics. *)
Record Trained := mkTrained {
  pickled : Model * Scaler;
  metrics : gmap string json
}.

(** Lines 27-29. *)
Definition drop_customer_id (df : DataFrame) : DataFrame :=
  if has_column "CUST_ID" df then drop_column "CUST_ID" df else df.

(** Lines 33-37. *)
Definition check_nan (df : DataFrame) : result DataFrame :=
  if decide (0 < isnull_sum_sum df)%nat then Err NaNValuesDetected else Ok df.

(** Lines 39-73, on the frame that passed the check. *)
Definition fit_and_report (df : DataFrame) (n_clusters : Z) : result Trained :=
  '(scaler, X_scaled) ← call (fit_transform df);
  kmeans ← call (KMeans_fit n_clusters 42 10 X_scaled);
  let inertia := inertia_ kmeans in
  let n_samples := len df in
  Ok (mkTrained (kmeans, scaler)
        (<["n_clusters"%string := JInt n_clusters]>
         (<["inertia"%string := JFloat inertia]>
         (<["n_samples"%string := JInt (Z.of_nat n_samples)]>
         (<["n_features"%string := JInt (Z.of_nat (n_columns df))]> ∅))))).

(** [train_model], from the frame [read_csv] returned to what is pickled
    and dumped, the two writes succeeding. *)
Definition train_model (df : DataFrame) (n_clusters : Z) : result Trained :=
  let df := drop_customer_id df in
  df ← check_nan df;
  fit_and_report df n_clusters.

End train.

Arguments mkTrained {Scaler Model} pickled metrics.
Arguments pickled {Scaler Model} t.
Arguments metrics {Scaler Model} t.

(** ** The machine's binary64 arithmetic

    [round64] is checked further down against the kernel's binary64
    floats; this is how a machine float is read as a [float]. *)

Module Binary64.
Import PrimFloat.

(** The value of a machine float; none for NaN. *)
Definition value (f : PrimFloat.float) : option Pandas.float :=
  match FloatOps.Prim2SF f with
  | SpecFloat.S754_zero _ => Some (Finite 0)
  | SpecFloat.S754_infinity false => Some PosInf
  | SpecFloat.S754_infinity true => Some NegInf
  | SpecFloat.S754_nan => None
  | SpecFloat.S754_finite s m e =>
      Some (Finite (Q2Qc ((if s then -1 else 1) * inject_Z (Zpos m) * pow2 e)%Q))
  end.

(** Sample floats: around 1, the ends of the range, subnormal values,
    values that are not dyadic in decimal, and the infinities. *)
Definition samples : list PrimFloat.float :=
  [0x1p+0; 0x1.0000000000001p+0; 0x1.0000000000002p+0; 0x1.8p+1;
   0x1.999999999999ap-4; 0x1.3333333333333p-2; 0x1.5p+52; 0x1.fffffffffffffp+52;
   0x1p+1023; 0x1.fffffffffffffp+1023; 0x1.e42d130773b76p+1023;
   0x0.0000000000001p-1022; 0x0.0000000000003p-1022; 0x1p-1022;
   0x0.fffffffffffffp-1022; 0x1.0000000000001p-1022;
   -0x1p+0; -0x1.999999999999ap-4; -0x1p+1023; -0x0.0000000000001p-1022;
   0; infinity; neg_infinity]%float.

(** [x + y] and [x / 2] as the machine computes them agree with
    [float_add] and [float_half] on the values. *)
Definition add_agrees (x y : PrimFloat.float) : bool :=
  bool_decide (value (x + y)%float
               = vx ← value x; vy ← value y; float_add vx vy).
Definition half_agrees (x : PrimFloat.float) : bool :=
  bool_decide (value (x / 2)%float = float_half <$> value x).

End Binary64.

(** ** The estimators, from the design

    [StandardScaler] and [KMeans] are scikit-learn code; the repository
    holds none of it.  The two modules below follow the design document's
    description of the Standardizer and of the ClusterFitter, in exact
    rational arithmetic. *)

Definition point := list Qc.

Module Standardizer.

(** Modelled from the spec: the sum of a feature's values, for the
    Standardizer's statistics (StandardScaler's code is absent). *)
Definition sum_Qc (xs : list Qc) : Qc := foldr Qcplus 0 xs.

(** Modelled from the spec: the number of values of a feature, as a
    rational (StandardScaler's code is absent). *)
Definition count_Qc (xs : list Qc) : Qc := Qc_of_Z (Z.of_nat (length xs)).

(** Modelled from the spec: the Standardizer's per-feature mean
    (StandardScaler's code is absent). *)
Definition mean (xs : list Qc) : Qc := sum_Qc xs / count_Qc xs.

(** Modelled from the spec: the Standardizer's per-feature variance, whose
    root is the standard deviation (StandardScaler's code is absent). *)
Definition variance (xs : list Qc) : Qc :=
  sum_Qc ((λ x, (x - mean xs) * (x - mean xs)) <$> xs) / count_Qc xs.

(** Modelled from the spec: the square root behind the standard
    deviation, exact and defined where the root is rational
    (StandardScaler's code is absent). *)
Definition Qc_sqrt (q : Qc) : option Qc :=
  let n := Qnum q in
  let d := Zpos (Qden q) in
  let a := Z.sqrt n in
  let b := Z.sqrt d in
  if decide (0 ≤ n ∧ a * a = n ∧ b * b = d)%Z
  then Some (Q2Qc (a # Z.to_pos b)) else None.

(** Modelled from the spec: the ScalingParameters of one feature, its
    mean and standard deviation (StandardScaler's code is absent). *)
Record ScalingParameters := mkScaling { mean_ : Qc; scale_ : Qc }.

(** Modelled from the spec: the Standardizer's fit of one feature
    (StandardScaler's code is absent).  A feature whose deviation is not
    rational has no parameters here. *)
Definition fit (xs : list Qc) : option ScalingParameters :=
  sd ← Qc_sqrt (variance xs);
  Some (mkScaling (mean xs) sd).

(** Modelled from the spec: (x - mean) / stddev entry by entry, and 0 for
    a feature of zero deviation (StandardScaler's code is absent). *)
Definition transform (p : ScalingParameters) (xs : list Qc) : list Qc :=
  (λ x, if decide (scale_ p = 0) then 0 else (x - mean_ p) / scale_ p) <$> xs.

(** Modelled from the spec: the numbers of a feature column, the
    Standardizer's input; none if an entry is missing, infinite or text
    (StandardScaler's code is absent). *)
Definition numbers (s : Series) : option (list Qc) :=
  mapM (λ c, match c with Num (Finite x) => Some x | _ => None end) (values s).

(** Modelled from the spec: the standardized table by rows, from its
    columns (StandardScaler's code is absent). *)
Definition transpose (n : nat) (cols : list (list Qc)) : list point :=
  foldr (zip_with cons) (replicate n []) cols.

(** Modelled from the spec: the Standardizer on a table of numeric
    features with no missing value (StandardScaler's code is absent). *)
Definition fit_transform (df : DataFrame)
    : option (list ScalingParameters * list point) :=
  cols ← mapM (λ c, numbers c.2) (columns df);
  params ← mapM fit cols;
  Some (params, transpose (len df) (zip_with transform params cols)).

End Standardizer.

Module ClusterFitter.

(** Modelled from the spec: squared Euclidean distance, as the
    ClusterFitter uses it (KMeans's code is absent). *)
Definition sq_dist (p c : point) : Qc :=
  foldr Qcplus 0 (zip_with (λ x y, (x - y) * (x - y)) p c).

(** Modelled from the spec: the scan of the ClusterFitter's assignment
    step, which keeps the nearest centroid so far and, on a tie, the
    lowest index (KMeans's code is absent). *)
Fixpoint nearest_from (p : point) (cs : list point) (j best : nat) (best_d : Qc) : nat :=
  match cs with
  | [] => best
  | c :: cs' =>
      if decide (sq_dist p c < best_d)
      then nearest_from p cs' (S j) j (sq_dist p c)
      else nearest_from p cs' (S j) best best_d
  end.

(** Modelled from the spec: the index of the centroid nearest to a point
    (KMeans's code is absent). *)
Definition nearest (cs : list point) (p : point) : nat :=
  match cs with
  | [] => 0%nat
  | c :: cs' => nearest_from p cs' 1 0 (sq_dist p c)
  end.

(** Modelled from the spec: the assignment of every point (KMeans's code
    is absent). *)
Definition assign (X : list point) (cs : list point) : list nat :=
  nearest cs <$> X.

(** Modelled from the spec: the points assigned to centroid [j]
    (KMeans's code is absent). *)
Definition members (X : list point) (a : list nat) (j : nat) : list point :=
  (filter (λ xa, xa.2 = j) (zip X a)).*1.

(** Modelled from the spec: the arithmetic mean of a non-empty list of
    points (KMeans's code is absent). *)
Definition centre (ps : list point) : point :=
  match ps with
  | [] => []
  | p :: ps' =>
      (λ s, s / Qc_of_Z (Z.of_nat (length ps))) <$> foldl (zip_with Qcplus) p ps'
  end.

(** Modelled from the spec: the ClusterFitter's update step, the mean of
    the points assigned to a centroid; a centroid with no point stays
    where it is (KMeans's code is absent). *)
Definition update (X : list point) (a : list nat) (cs : list point) : list point :=
  imap (λ j c, match members X a j with [] => c | ps => centre ps end) cs.

(** Modelled from the spec: the cap on the number of iterations
    (KMeans's code is absent). *)
Definition max_iter : nat := 300.

(** Modelled from the spec: the ClusterFitter's iteration, assignment and
    update in turn until no point changes its assignment or the cap is
    reached (KMeans's code is absent). *)
Fixpoint lloyd (fuel : nat) (X cs : list point) (prev : option (list nat))
    : list point * list nat :=
  let a := assign X cs in
  match fuel with
  | O => (cs, a)
  | S fuel' =>
      if decide (prev = Some a) then (cs, a)
      else lloyd fuel' X (update X a cs) (Some a)
  end.

(** Modelled from the spec: inertia, the sum over the points of the
    squared distance to the assigned centroid (KMeans's code is absent). *)
Definition inertia_of (X cs : list point) (a : list nat) : Qc :=
  foldr Qcplus 0 (zip_with (λ p j, sq_dist p (default [] (cs !! j))) X a).

(** Modelled from the spec: what one restart of the ClusterFitter
    returns, with the restart's number (KMeans's code is absent). *)
Record Fit := mkFit { restart : nat; centroids : list point; inertia : Qc }.

(** Modelled from the spec: the better of two restarts, lowest final
    inertia first and the earlier restart on a tie (KMeans's code is
    absent). *)
Definition better (a b : Fit) : Fit :=
  if decide (inertia b < inertia a
             ∨ (inertia b = inertia a ∧ (restart b < restart a)%nat))
  then b else a.

(** Modelled from the spec: the ClusterFitter's selection over the
    restarts performed (KMeans's code is absent). *)
Definition select (rs : list Fit) : option Fit :=
  match rs with
  | [] => None
  | r :: rs' => Some (foldl better r rs')
  end.

(** Modelled from the spec: the order the selection follows, [a] is at
    least as good as [b] (KMeans's code is absent). *)
Definition fit_le (a b : Fit) : Prop :=
  inertia a < inertia b ∨ (inertia a = inertia b ∧ (restart a ≤ restart b)%nat).

Section restarts.

(** The starting centroids of a restart, from the seed, the restart's
    number, the table and [k]: the design leaves the policy open. *)
Variable init : Z → nat → list point → nat → list point.
Variables (seed : Z) (k : nat) (X : list point).

(** Modelled from the spec: one restart of the ClusterFitter, the full
    iteration from the restart's own starting centroids (KMeans's code is
    absent). *)
Definition run_restart (i : nat) : Fit :=
  let '(cs, a) := lloyd max_iter X (init seed i X k) None in
  mkFit i cs (inertia_of X cs a).

(** Modelled from the spec: the ClusterFitter over its restarts, which
    are independent and may complete in any order; the best is kept
    (KMeans's code is absent). *)
Definition fit_in_order (order : list nat) : option Fit :=
  select (run_restart <$> order).

(** Modelled from the spec: the ClusterFitter with [n_init] restarts,
    taken in turn (KMeans's code is absent). *)
Definition fit (n_init : nat) : option Fit := fit_in_order (seq 0 n_init).

End restarts.

(** Modelled from the spec: one initialisation policy, [k] rows of the
    table taken from a position that the seed and the restart fix
    (KMeans's code is absent). *)
Definition rows_from_offset (seed : Z) (i : nat) (X : list point) (k : nat)
    : list point :=
  let n := length X in
  let start := (Z.to_nat (seed `mod` Z.of_nat n) + i) `mod` n in
  take k (rotate start X).

(** Modelled from the spec: the ClusterFitter with this policy, as
    [KMeans(n_clusters, random_state, n_init).fit(X)]; no model when [k]
    is not between 1 and the number of rows (KMeans's code is absent). *)
Definition KMeans_fit (n_clusters seed : Z) (n_init : nat) (X : list point)
    : option Fit :=
  if decide (0 < n_clusters ≤ Z.of_nat (length X))%Z
  then fit rows_from_offset seed (Z.to_nat n_clusters) X n_init
  else None.

End ClusterFitter.

(** ** Sample tables *)

Definition qz (z : Z) : cell := Num (Qc_of_Z z).

(** One column with two missing balances. *)
Definition balance : Series :=
  mkSeries float64 [qz 100; NaN; qz 300; qz 300; NaN; qz 100].
Definition balance_frame : DataFrame :=
  mkFrame (seq 0 6) [("BALANCE"%string, balance)].

(** Two balances whose float64 sum is out of range, and a missing one. *)
Definition huge : Qc := Q2Qc (pow2 1023).
Definition overflowing : DataFrame :=
  mkFrame (seq 0 3)
    [("BALANCE"%string, mkSeries float64 [Num huge; Num huge; NaN])].

(** The two infinities and a missing balance. *)
Definition opposite_infinities : DataFrame :=
  mkFrame (seq 0 3)
    [("BALANCE"%string, mkSeries float64 [Num PosInf; Num NegInf; NaN])].

(** The balance 1, the next float64 after it, and a missing one. *)
Definition neighbours : DataFrame :=
  mkFrame (seq 0 3)
    [("BALANCE"%string,
      mkSeries float64 [Num 1; Num (Q2Qc (1 + pow2 (-52))); NaN])].

(** A raw table with a missing identifier and a missing balance. *)
Definition customers : DataFrame :=
  mkFrame (seq 0 3)
    [("CUST_ID"%string, mkSeries object_ [Str "C10001"; NaN; Str "C10003"]);
     ("BALANCE"%string, mkSeries float64 [qz 40; qz 900; NaN])].

(** A cleaned table whose only missing value is an identifier. *)
Definition cleaned_missing_id : DataFrame :=
  mkFrame (seq 0 4)
    [("CUST_ID"%string,
      mkSeries object_ [Str "C10001"; NaN; Str "C10003"; Str "C10004"]);
     ("BALANCE"%string, mkSeries float64 [qz 1; qz 3; qz 1; qz 3]);
     ("PAYMENTS"%string, mkSeries float64 [qz 2; qz 2; qz 2; qz 2])].

(** Five standardized points in the plane. *)
Definition five_points : list point :=
  map (map Qc_of_Z) [[0; 0]; [0; 1]; [10; 10]; [10; 11]; [5; 5]]%Z.

(** A table whose third row repeats the first. *)
Definition repeated_rows : DataFrame :=
  mkFrame (seq 0 4)
    [("CUST_ID"%string, mkSeries object_ [Str "A"; Str "B"; Str "A"; Str "A"]);
     ("BALANCE"%string, mkSeries float64 [qz 1; qz 2; qz 1; qz 5])].

(** ** Shape of a frame *)

(** The label and dtype of every column, in order: what the header and
    the column types of the written table are. *)
Definition schema (df : DataFrame) : list (string * dtype) :=
  (λ c, (c.1, dtype_of c.2)) <$> columns df.

(** A frame as pandas keeps it: every column has one entry per row
    label. *)
Definition well_formed (df : DataFrame) : Prop :=
  Forall (λ c, length (values c.2) = length (index df)) (columns df).

(** ** Values on a binary grid *)


(** ** What the two scripts print

    Each [print] is recorded as a message that carries the values the
    printed line interpolates; the wording of the line is in the comment
    of its constructor. *)

Inductive preprocess_message :=
  | LoadingData (input_path : string)
      (* Loading data from {input_path}... *)
  | OriginalShape (n_rows n_cols : nat)
      (* Original shape: {df.shape} *)
  | MissingValues (n : nat)
      (* Missing values: {df.isnull().sum().sum()} *)
  | FilledMissing (missing_count : nat) (col : string)
      (* Filled {missing_count} missing values in {col} *)
  | RowsAfterDuplicates (initial_rows n_rows : nat)
      (* Rows after removing duplicates: {initial_rows} -> {len(df)} *)
  | MissingAfterCleaning (remaining_nan : nat)
      (* Missing values after cleaning: {remaining_nan} *)
  | WarningFillingZero
      (* Warning: Some NaN values remain. Filling with 0... *)
  | FinalMissing (n : nat)
      (* Final missing values: {df.isnull().sum().sum()} *)
  | ProcessedSaved (output_path : string).
      (* Processed data saved to {output_path} *)

(** One turn of the loop of lines 26-33, with the line it prints. *)
Definition impute_col_console (st : DataFrame * list preprocess_message)
    (col : string) : DataFrame * list preprocess_message :=
  let '(df, out) := st in
  match getitem df col with
  | None => st
  | Some s =>
      if decide (0 < isnull_sum s)%nat then
        let median_val := median s in
        let fill_value := if notna median_val then median_val else Num 0 in
        let missing_count := isnull_sum s in
        (setitem df col (fillna fill_value s),
         out ++ [FilledMissing missing_count col])
      else st
  end.

(** What a visit of [col] prints, given the column found there. *)
Definition filled_line (looked_up : option Series) (col : string)
    : option preprocess_message :=
  match looked_up with
  | Some s =>
      if decide (0 < isnull_sum s)%nat then Some (FilledMissing (isnull_sum s) col)
      else None
  | None => None
  end.

(** Lines 51-53: [written] says whether [mkdir] and [to_csv] return.
    When they do, the frame is in the file and the last line is printed;
    when one of them raises, the run ends there. *)
Definition to_csv_console (written : bool) (output_path : string)
    (df : DataFrame) (out : list preprocess_message)
    : option DataFrame * list preprocess_message :=
  if written then (Some df, out ++ [ProcessedSaved output_path])
  else (None, out).

(** [preprocess_data] with its console output: the frame written, if the
    write succeeded, and the lines printed, in order. *)
Definition preprocess_data_console (written : bool)
    (input_path output_path : string) (df : DataFrame)
    : option DataFrame * list preprocess_message :=
  let out := [LoadingData input_path;
              OriginalShape (len df) (n_columns df);
              MissingValues (isnull_sum_sum df)] in
  let numeric_cols := select_dtypes_columns numeric_dtypes df in
  let '(df, out) := foldl impute_col_console (df, out) numeric_cols in
  let initial_rows := len df in
  let df := drop_duplicates df in
  let out := out ++ [RowsAfterDuplicates initial_rows (len df)] in
  let remaining_nan := isnull_sum_sum df in
  let out := out ++ [MissingAfterCleaning remaining_nan] in
  if decide (0 < remaining_nan)%nat then
    let out := out ++ [WarningFillingZero] in
    let df := fillna_frame (Num 0) df in
    let out := out ++ [FinalMissing (isnull_sum_sum df)] in
    to_csv_console written output_path df out
  else to_csv_console written output_path df out.

(** The counts the loop reports, with their columns. *)
Definition filled_counts (out : list preprocess_message) : list (string * nat) :=
  omap (λ m, match m with FilledMissing n col => Some (col, n) | _ => None end) out.

Inductive train_message :=
  | LoadingProcessed (input_path : string)
      (* Loading processed data from {input_path}... *)
  | TrainingShape (n_rows n_cols : nat)
      (* Training data shape: {df.shape} *)
  | ErrorNaN
      (* ERROR: Data contains NaN values! *)
  | ColumnsWithNaN (counts : list (string * nat))
      (* Columns with NaN: {df.isnull().sum()[df.isnull().sum() > 0]} *)
  | TrainingKMeans (n_clusters : Z)
      (* Training K-means with {n_clusters} clusters... *)
  | TrainingComplete
      (* Training complete! *)
  | InertiaIs (inertia : Qc)
      (* Inertia: {inertia:.2f} *)
  | SamplesAre (n_samples : nat)
      (* Samples: {n_samples} *)
  | ModelSaved (model_path : string)
      (* Model saved to {model_path} *)
  | MetricsSaved (metrics_path : string).
      (* Metrics saved to {metrics_path} *)

(** [df.isnull().sum()[df.isnull().sum() > 0]]: the columns that hold a
    missing value, each with its count. *)
Definition columns_with_nan (df : DataFrame) : list (string * nat) :=
  filter (λ c, (0 < c.2)%nat) ((λ c, (c.1, isnull_sum c.2)) <$> columns df).

Section train_console.

Context {Scaler Matrix Model : Type}.
Variable fit_transform : DataFrame → option (Scaler * Matrix).
Variable KMeans_fit : Z → Z → nat → Matrix → option Model.
Variable inertia_ : Model → Qc.

(** [train_model] with its console output: the lines printed, in order,
    and how the run ended.  [model_written] says whether the write of the
    pickle (lines 57-59) returns, [metrics_written] whether the write of
    the metrics (lines 70-72) does; a write that raises ends the run. *)
Definition train_model_console (model_written metrics_written : bool)
    (input_path model_path metrics_path : string)
    (df : DataFrame) (n_clusters : Z) : list train_message * result Trained :=
  let out := [LoadingProcessed input_path] in
  let df := if has_column "CUST_ID" df then drop_column "CUST_ID" df else df in
  let out := out ++ [TrainingShape (len df) (n_columns df)] in
  if decide (0 < isnull_sum_sum df)%nat then
    (out ++ [ErrorNaN; ColumnsWithNaN (columns_with_nan df)],
     Err NaNValuesDetected)
  else
    match fit_transform df with
    | None => (out, Err EstimatorFailed)
    | Some (scaler, X_scaled) =>
        let out := out ++ [TrainingKMeans n_clusters] in
        match KMeans_fit n_clusters 42 10 X_scaled with
        | None => (out, Err EstimatorFailed)
        | Some kmeans =>
            let inertia := inertia_ kmeans in
            let n_samples := len df in
            let out := out ++ [TrainingComplete; InertiaIs inertia;
                               SamplesAre n_samples] in
            if model_written then
              let out := out ++ [ModelSaved model_path] in
              let metrics :=
                <["n_clusters"%string := JInt n_clusters]>
                (<["inertia"%string := JFloat inertia]>
                (<["n_samples"%string := JInt (Z.of_nat n_samples)]>
                (<["n_features"%string := JInt (Z.of_nat (n_columns df))]> ∅))) in
              if metrics_written then
                (out ++ [MetricsSaved metrics_path],
                 Ok (mkTrained (kmeans, scaler) metrics))
              else (out, Err WriteFailed)
            else (out, Err WriteFailed)
        end
    end.

End train_console.

(** * Properties *)

(** ** Columns by label *)

Section columns.
Implicit Types (cs : list (string * Series)) (s : Series) (col : string).

Lemma lookup_col_assign_eq col s cs :
  lookup_col col (assign_col col s cs) = Some s.
Proof.
  induction cs as [|[n s0] cs IH]; simpl.
  - by rewrite decide_True.
  - destruct (decide (n = col)) as [->|Hne]; simpl.
    + by rewrite decide_True.
    + by rewrite decide_False.
Qed.

Lemma lookup_col_assign_ne col col' s cs :
  col ≠ col' → lookup_col col' (assign_col col s cs) = lookup_col col' cs.
Proof.
  intros Hne. induction cs as [|[n s0] cs IH]; simpl.
  - by rewrite decide_False.
  - destruct (decide (n = col)) as [->|Hn]; simpl.
    + by rewrite !decide_False.
    + destruct (decide (n = col')); [done|apply IH].
Qed.

Lemma lookup_col_elem_of col s cs :
  lookup_col col cs = Some s → (col, s) ∈ cs.
Proof.
  induction cs as [|[n s0] cs IH]; simpl; [done|].
  destruct (decide (n = col)) as [->|Hn].
  - intros [= ->]. left.
  - intros H. right. by apply IH.
Qed.

Lemma lookup_col_NoDup col s cs :
  NoDup cs.*1 → (col, s) ∈ cs → lookup_col col cs = Some s.
Proof.
  induction cs as [|[n s0] cs IH]; simpl; [by intros _ ?%elem_of_nil|].
  intros [Hn Hnd]%NoDup_cons [Heq|Hin]%elem_of_cons.
  - injection Heq as -> ->. by rewrite decide_True.
  - destruct (decide (n = col)) as [->|?]; [|by apply IH].
    exfalso. apply Hn. apply list_elem_of_fmap. by exists (col, s).
Qed.

End columns.

(** ** The imputation loop *)

Lemma fill_value_of_notnull s : isnull (fill_value_of s) = false.
Proof.
  unfold fill_value_of, notna. destruct (isnull (median s)) eqn:E; simpl; done.
Qed.

Lemma isnull_sum_fillna v s : isnull v = false → isnull_sum (fillna v s) = 0%nat.
Proof.
  intros Hv. unfold isnull_sum, fillna; simpl.
  induction (values s) as [|c l IH]; [done|].
  rewrite fmap_cons, filter_cons_False; [done|].
  unfold fill_cell. destruct (isnull c) eqn:E; congruence.
Qed.

Lemma impute_series_idemp s : impute_series (impute_series s) = impute_series s.
Proof.
  destruct (decide (0 < isnull_sum s)%nat) as [H|H].
  - assert (impute_series s = fillna (fill_value_of s) s) as ->
      by (unfold impute_series; by rewrite decide_True).
    unfold impute_series. rewrite decide_False; [done|].
    rewrite isnull_sum_fillna by apply fill_value_of_notnull. lia.
  - assert (impute_series s = s) as ->
      by (unfold impute_series; by rewrite decide_False).
    unfold impute_series; by rewrite decide_False.
Qed.

(** A turn of the loop rewrites the column it visits and no other. *)
Lemma getitem_impute_col_eq df col :
  getitem (impute_col df col) col = impute_series <$> getitem df col.
Proof.
  unfold impute_col, impute_series. destruct (getitem df col) as [s|] eqn:E; simpl.
  - case_decide; [|done]. unfold getitem, setitem; simpl. apply lookup_col_assign_eq.
  - done.
Qed.

Lemma getitem_impute_col_ne df col col' :
  col ≠ col' → getitem (impute_col df col) col' = getitem df col'.
Proof.
  intros Hne. unfold impute_col. destruct (getitem df col) as [s|]; [|done].
  case_decide; [|done]. unfold getitem, setitem; simpl. by apply lookup_col_assign_ne.
Qed.

Lemma getitem_foldl_impute cols : ∀ df col,
  getitem (foldl impute_col df cols) col
  = if decide (col ∈ cols) then impute_series <$> getitem df col else getitem df col.
Proof.
  induction cols as [|c cols IH]; intros df col; cbn [foldl].
  - by rewrite decide_False by apply not_elem_of_nil.
  - rewrite IH. destruct (decide (c = col)) as [->|Hne].
    + rewrite getitem_impute_col_eq, (decide_True (P := col ∈ col :: cols)) by left.
      case_decide; [|done]. destruct (getitem df col); simpl; [|done].
      by rewrite impute_series_idemp.
    + rewrite getitem_impute_col_ne by done.
      destruct (decide (col ∈ cols)) as [Hin|Hin].
      * by rewrite decide_True by by right.
      * rewrite decide_False; [done|]. intros [?|?]%elem_of_cons; congruence.
Qed.

Lemma numeric_col_selected df col s :
  getitem df col = Some s → dtype_of s ∈ numeric_dtypes →
  col ∈ select_dtypes_columns numeric_dtypes df.
Proof.
  intros Hget Hdt. unfold select_dtypes_columns.
  apply list_elem_of_fmap. exists (col, s). split; [done|].
  apply list_elem_of_filter. split; [done|]. by apply lookup_col_elem_of.
Qed.

Lemma getitem_imputer_numeric df col s :
  getitem df col = Some s → dtype_of s ∈ numeric_dtypes →
  getitem (imputer df) col = Some (impute_series s).
Proof.
  intros Hget Hdt. unfold imputer. rewrite getitem_foldl_impute.
  rewrite decide_True by eauto using numeric_col_selected. by rewrite Hget.
Qed.

(** With distinct column labels, a column that is not numeric is never
    visited. *)
Lemma imputer_untouched df col s :
  NoDup (columns df).*1 → getitem df col = Some s →
  dtype_of s ∉ numeric_dtypes → getitem (imputer df) col = Some s.
Proof.
  intros Hnd Hget Hdt. unfold imputer. rewrite getitem_foldl_impute.
  rewrite decide_False; [done|]. unfold select_dtypes_columns.
  intros [[n s'] [Heq [Hs' Hin]%list_elem_of_filter]]%list_elem_of_fmap.
  simpl in *; subst n. apply Hdt.
  apply (lookup_col_NoDup _ _ _ Hnd) in Hin. unfold getitem in Hget. congruence.
Qed.

(** ** The median *)

Global Instance float_le_refl : Reflexive float_le.
Proof. intros [a| |]; simpl; [apply Qcle_refl|done..]. Qed.
Global Instance float_le_trans : Transitive float_le.
Proof.
  intros [a| |] [b| |] [c| |]; simpl; try done. apply Qcle_trans.
Qed.
Global Instance float_le_total : Total float_le.
Proof.
  intros [a| |] [b| |]; simpl; try tauto.
  destruct (Qclt_le_dec a b) as [?%Qclt_le_weak|?]; tauto.
Qed.
Global Instance float_le_antisym : AntiSymm (=) float_le.
Proof.
  intros [a| |] [b| |]; simpl; try done. intros H1 H2. f_equal.
  by apply Qcle_antisym.
Qed.

Lemma median_of_nil : median_of [] = NaN.
Proof. reflexivity. Qed.

Lemma dropna_values_all_missing s :
  Forall (λ c, c = NaN) (values s) → dropna_values s = [].
Proof.
  unfold dropna_values. induction 1 as [|c l -> _ IH]; [done|]. simpl. apply IH.
Qed.

Lemma dropna_values_nil s :
  Forall (λ c, ∀ t, c ≠ Str t) (values s) →
  dropna_values s = [] → Forall (λ c, c = NaN) (values s).
Proof.
  unfold dropna_values. induction 1 as [|c l Hc _ IH]; [constructor|].
  simpl. destruct c as [|x|t]; simpl.
  - intros H. constructor; [done|by apply IH].
  - done.
  - by destruct (Hc t).
Qed.

(** In a column without text, the numbers are the entries that are not
    missing. *)
Lemma dropna_values_present s :
  Forall (λ c, ∀ t, c ≠ Str t) (values s) →
  Num <$> dropna_values s = filter (λ c, c ≠ NaN) (values s).
Proof.
  unfold dropna_values. induction 1 as [|c l Hc _ IH]; [done|].
  destruct c as [|x|t].
  - rewrite filter_cons_False by (intros H; by apply H).
    cbn [omap list_omap]. apply IH.
  - rewrite filter_cons_True by done. cbn [omap list_omap].
    rewrite fmap_cons. by rewrite IH.
  - by destruct (Hc t).
Qed.

Lemma isnull_sum_pos s : (0 < isnull_sum s)%nat ↔ NaN ∈ values s.
Proof.
  unfold isnull_sum. induction (values s) as [|c l IH].
  - simpl. split; [lia|by intros ?%elem_of_nil].
  - destruct c; rewrite ?filter_cons_True, ?filter_cons_False by done; simpl.
    + split; [intros _; left|lia].
    + rewrite IH. split; [by right|]. by intros [?|?]%elem_of_cons.
    + rewrite IH. split; [by right|]. by intros [?|?]%elem_of_cons.
Qed.

Lemma fill_value_of_all_missing s :
  Forall (λ c, c = NaN) (values s) → fill_value_of s = Num 0.
Proof.
  intros H. unfold fill_value_of, median.
  by rewrite dropna_values_all_missing.
Qed.

(** The fill value, from the sorted numbers of the column. *)
Lemma fill_value_of_sorted s :
  let sorted := merge_sort float_le (dropna_values s) in
  (sorted = [] → fill_value_of s = Num 0)
  ∧ (∀ i m, length sorted = (2 * i + 1)%nat → sorted !! i = Some m →
       fill_value_of s = Num m)
  ∧ (∀ i lo hi, length sorted = (2 * i + 2)%nat →
       sorted !! i = Some lo → sorted !! (i + 1)%nat = Some hi →
       fill_value_of s = match float_add lo hi with
                         | Some sum => Num (float_half sum)
                         | None => Num 0
                         end).
Proof.
  intros sorted. unfold fill_value_of, median, median_of. fold sorted.
  split_and!.
  - intros ->. done.
  - intros i m Hlen Hm. rewrite Hlen.
    replace ((2 * i + 1) / 2)%nat with i
      by (apply (Nat.div_unique _ 2 i 1); lia).
    rewrite Hm. replace (2 * i + 1)%nat with (S (2 * i)) by lia.
    rewrite Nat.odd_succ, Nat.even_mul. done.
  - intros i lo hi Hlen Hlo Hhi. rewrite Hlen.
    replace ((2 * i + 2) / 2)%nat with (i + 1)%nat
      by (apply (Nat.div_unique _ 2 (i + 1) 0); lia).
    rewrite Hhi. replace (i + 1 - 1)%nat with i by lia. rewrite Hlo.
    replace (2 * i + 2)%nat with (S (S (2 * i))) by lia.
    rewrite Nat.odd_succ, Nat.even_succ, Nat.odd_mul. simpl.
    unfold mean_of_two. by destruct (float_add lo hi).
Qed.

Example median_skips_missing :
  median (mkSeries float64 [qz 1; qz 2; NaN; qz 4]) = qz 2.
Proof. vm_compute. reflexivity. Qed.

Example median_of_balance : median balance = qz 200.
Proof. apply (bool_decide_eq_true_1 _). vm_compute. reflexivity. Qed.

(** C1, amended.  For every table and every numeric column with at
    least one missing entry, the imputation loop leaves the entries that
    are not missing as they are and replaces each missing entry by one
    fill value.  With the non-missing values sorted, the fill value is
    the middle one when their number is odd; when it is even, it is the
    float64 mean of the two middle ones (their float64 sum, halved), which
    is an infinity when the sum leaves the float64 range; and it is 0
    when there is no value to take a median of, or when the mean is
    undefined because the two middle values are the two infinities. *)
Theorem imputer_fills_with_median (df : DataFrame) (col : string) (s : Series) :
  getitem df col = Some s →
  dtype_of s ∈ numeric_dtypes →
  Forall (λ c, ∀ t, c ≠ Str t) (values s) →
  NaN ∈ values s →
  ∃ (sorted : list float) (fill : cell),
    Sorted float_le sorted
    ∧ Num <$> sorted ≡ₚ filter (λ c, c ≠ NaN) (values s)
    ∧ getitem (imputer df) col
      = Some (mkSeries (dtype_of s) ((λ c, if isnull c then fill else c) <$> values s))
    ∧ (Forall (λ c, c = NaN) (values s) → fill = Num 0)
    ∧ (sorted = [] → fill = Num 0)
    ∧ (∀ i m, length sorted = (2 * i + 1)%nat → sorted !! i = Some m →
         fill = Num m)
    ∧ (∀ i lo hi, length sorted = (2 * i + 2)%nat →
         sorted !! i = Some lo → sorted !! (i + 1)%nat = Some hi →
         fill = match float_add lo hi with
                | Some sum => Num (float_half sum)
                | None => Num 0
                end).
Proof.
  intros Hget Hdt Hnum Hnan.
  exists (merge_sort float_le (dropna_values s)), (fill_value_of s).
  destruct (fill_value_of_sorted s) as (Hnil & Hodd & Heven).
  split_and!;
    [| | |apply fill_value_of_all_missing|exact Hnil|exact Hodd|exact Heven].
  - apply Sorted_merge_sort, _.
  - rewrite <-(dropna_values_present s Hnum).
    apply fmap_Permutation, merge_sort_Permutation.
  - rewrite (getitem_imputer_numeric _ _ _ Hget Hdt).
    unfold impute_series. by rewrite decide_True by by apply isnull_sum_pos.
Qed.

Lemma imputer_fills_with_median_witness :
  ∃ (sorted : list float) (fill : cell),
    Sorted float_le sorted
    ∧ Num <$> sorted ≡ₚ filter (λ c, c ≠ NaN) (values balance)
    ∧ getitem (imputer balance_frame) "BALANCE"
      = Some (mkSeries float64 ((λ c, if isnull c then fill else c) <$> values balance))
    ∧ (Forall (λ c, c = NaN) (values balance) → fill = Num 0)
    ∧ (sorted = [] → fill = Num 0)
    ∧ (∀ i m, length sorted = (2 * i + 1)%nat → sorted !! i = Some m →
         fill = Num m)
    ∧ (∀ i lo hi, length sorted = (2 * i + 2)%nat →
         sorted !! i = Some lo → sorted !! (i + 1)%nat = Some hi →
         fill = match float_add lo hi with
                | Some sum => Num (float_half sum)
                | None => Num 0
                end).
Proof.
  apply (imputer_fills_with_median balance_frame "BALANCE" balance).
  - reflexivity.
  - unfold numeric_dtypes; simpl. left.
  - unfold balance, qz; simpl. repeat constructor; intros t; discriminate.
  - unfold balance; simpl. right; left.
Defined.

(** C1 as first stated does not hold.  Two balances of [2 ** 1023]
    (8.98846567431158e+307 in the file read) have that value for median,
    yet the missing balance becomes an infinity, above every balance of
    the column; and next to the two infinities the missing balance
    becomes 0, though not every value of the column is missing. *)
Lemma imputer_fill_not_the_median :
  getitem (imputer overflowing) "BALANCE"
  = Some (mkSeries float64 [Num huge; Num huge; Num PosInf])
  ∧ ¬ float_le PosInf huge
  ∧ getitem (imputer opposite_infinities) "BALANCE"
    = Some (mkSeries float64 [Num PosInf; Num NegInf; Num 0]).
Proof.
  split_and!.
  - apply (bool_decide_eq_true_1 _). vm_compute. reflexivity.
  - simpl. tauto.
  - apply (bool_decide_eq_true_1 _). vm_compute. reflexivity.
Qed.

(** A column with no missing entry comes out of the imputation loop as it
    went in. *)
Theorem imputer_keeps_complete_column (df : DataFrame) (col : string) (s : Series) :
  getitem df col = Some s → NaN ∉ values s → getitem (imputer df) col = Some s.
Proof.
  intros Hget Hnan. unfold imputer. rewrite getitem_foldl_impute, Hget.
  assert (impute_series s = s) as Hs.
  { unfold impute_series. rewrite decide_False; [done|]. by rewrite isnull_sum_pos. }
  case_decide; simpl; by rewrite ?Hs.
Qed.

Lemma imputer_keeps_complete_column_witness :
  getitem (imputer repeated_rows) "BALANCE"
  = Some (mkSeries float64 [qz 1; qz 2; qz 1; qz 5]).
Proof.
  apply (imputer_keeps_complete_column repeated_rows "BALANCE").
  - reflexivity.
  - simpl. unfold qz. rewrite !not_elem_of_cons.
    split_and!; try discriminate. apply not_elem_of_nil.
Defined.

(** ** The rounding, against the machine *)

(** On every pair of the sample floats, the sum the machine computes is
    the one [float_add] gives, and so is the half of every sample. *)
Example float_add_is_binary64 :
  forallb (λ x, forallb (Binary64.add_agrees x) Binary64.samples) Binary64.samples
  = true.
Proof. vm_compute. reflexivity. Qed.

Example float_half_is_binary64 :
  forallb Binary64.half_agrees Binary64.samples = true.
Proof. vm_compute. reflexivity. Qed.

(** The mean of 1 and the next float64 after 1: their sum falls half-way
    between two float64 values and is rounded to the even one, 2, so the
    mean is 1, not the rational mid-point. *)
Example mean_of_two_rounds :
  mean_of_two 1 (Q2Qc (1 + pow2 (-52))) = Num 1.
Proof. apply (bool_decide_eq_true_1 _). vm_compute. reflexivity. Qed.

(** A sum beyond the float64 range is an infinity, and so is its half. *)
Example mean_of_two_overflows : mean_of_two huge huge = Num PosInf.
Proof. vm_compute. reflexivity. Qed.

(** The two infinities have no mean. *)
Example mean_of_two_undefined : mean_of_two PosInf NegInf = NaN.
Proof. reflexivity. Qed.

(** ** float64 values round to themselves *)

Section rounding.
Local Open Scope Q_scope.










End rounding.


Section grid.
Local Open Scope Q_scope.


End grid.


(** ** The median splits the values *)

Section sorted.
Implicit Types (l : list float) (m : float).






End sorted.






(** ** Boolean indexing *)

Section mask_select.
Context {A : Type}.
Implicit Types (m : list bool) (l : list A).

Lemma mask_select_nil_r m : mask_select m (@nil A) = [].
Proof. by destruct m. Qed.

Lemma mask_select_sublist m l : mask_select m l `sublist_of` l.
Proof.
  revert l. induction m as [|b m IH]; intros l; [apply sublist_nil_l|].
  destruct l as [|x l]; [done|]. simpl.
  destruct b; [by apply sublist_skip|by apply sublist_cons].
Qed.

Lemma mask_select_length_le m l :
  (length (mask_select m l) ≤ length (filter (λ b, b = true) m))%nat.
Proof.
  revert l. induction m as [|b m IH]; intros [|x l]; simpl; try lia.
  specialize (IH l). destruct b.
  - rewrite filter_cons_True by done. simpl. lia.
  - rewrite filter_cons_False by done. lia.
Qed.

Lemma mask_select_length m l :
  (length m ≤ length l)%nat →
  length (mask_select m l) = length (filter (λ b, b = true) m).
Proof.
  revert l. induction m as [|b m IH]; intros [|x l]; simpl; try done; try lia.
  intros Hle. specialize (IH l ltac:(lia)). destruct b.
  - rewrite filter_cons_True by done. simpl. lia.
  - rewrite filter_cons_False by done. lia.
Qed.

Lemma mask_select_all n l :
  (length l ≤ n)%nat → mask_select (replicate n true) l = l.
Proof.
  revert l. induction n as [|n IH]; intros [|x l]; simpl; try done; try lia.
  intros Hle. f_equal. apply IH. lia.
Qed.

Lemma mask_select_zip_with {B C} (f : A → B → C) m l (k : list B) :
  mask_select m (zip_with f l k) = zip_with f (mask_select m l) (mask_select m k).
Proof.
  revert l k. induction m as [|b m IH]; intros [|x l] [|y k]; simpl; try done.
  - destruct b; simpl; by rewrite ?zip_with_nil_r.
  - destruct b; simpl; by rewrite IH.
Qed.

Lemma mask_select_fmap {B} (f : A → B) m l :
  mask_select m (f <$> l) = f <$> mask_select m l.
Proof.
  revert l. induction m as [|b m IH]; intros [|x l]; simpl; try done.
  destruct b; simpl; by rewrite IH.
Qed.

End mask_select.

(** ** Rows and duplicate detection *)

(** Selecting rows column by column selects the rows. *)
Lemma rows_boolean_index m df :
  rows (boolean_index m df) = mask_select m (rows df).
Proof.
  unfold rows, boolean_index; cbn [index columns].
  induction (columns df) as [|[n s] cs IH].
  - cbn [fmap list_fmap foldr]. by rewrite mask_select_fmap.
  - rewrite fmap_cons. cbn [foldr snd values]. by rewrite IH, mask_select_zip_with.
Qed.

Lemma rows_length_index df : (length (rows df) ≤ length (index df))%nat.
Proof.
  unfold rows. induction (columns df) as [|[n s] cs IH]; cbn [foldr].
  - by rewrite length_fmap.
  - rewrite length_zip_with. etrans; [apply Nat.le_min_r|exact IH].
Qed.

Section duplicated.
Implicit Types (seen rs : list row) (r : row).

Lemma duplicated_from_length seen rs :
  length (duplicated_from seen rs) = length rs.
Proof.
  revert seen. induction rs as [|r rs IH]; intros seen; simpl; [done|].
  case_decide; simpl; by rewrite IH.
Qed.

(** Row [i] is flagged exactly when it occurs in [seen] or before
    position [i]. *)
Lemma duplicated_from_lookup rs : ∀ seen i r,
  rs !! i = Some r →
  duplicated_from seen rs !! i
  = Some (bool_decide (r ∈ seen ∨ r ∈ take i rs)).
Proof.
  induction rs as [|r0 rs IH]; intros seen i r; [done|].
  destruct i as [|i]; simpl.
  - intros [= ->]. case_decide as Hin; simpl; f_equal; symmetry.
    + apply bool_decide_eq_true. by left.
    + apply bool_decide_eq_false. intros [?|?%elem_of_nil]; done.
  - intros Hr. case_decide as Hin; simpl; rewrite (IH _ _ _ Hr); f_equal;
      apply bool_decide_ext; rewrite !elem_of_cons.
    + split; [tauto|]. intros [?|[->|?]]; tauto.
    + tauto.
Qed.

Lemma duplicated_from_NoDup rs : ∀ seen,
  NoDup rs → (∀ r, r ∈ rs → r ∉ seen) →
  duplicated_from seen rs = replicate (length rs) false.
Proof.
  induction rs as [|r rs IH]; intros seen Hnd Hdisj; simpl; [done|].
  apply NoDup_cons in Hnd as [Hr Hnd].
  rewrite decide_False by (apply Hdisj; left). f_equal.
  apply IH; [done|]. intros r' Hr' [->|?]%elem_of_cons; [done|].
  by apply (Hdisj r'); [right|].
Qed.

Lemma mask_select_duplicated_NoDup rs : ∀ seen,
  NoDup (mask_select (negb <$> duplicated_from seen rs) rs) ∧
  ∀ r, r ∈ mask_select (negb <$> duplicated_from seen rs) rs → r ∉ seen.
Proof.
  induction rs as [|r rs IH]; intros seen; simpl.
  - split; [constructor|]. by intros r ?%elem_of_nil.
  - case_decide as Hin; simpl.
    + apply IH.
    + destruct (IH (r :: seen)) as [Hnd Hdisj]. split.
      * apply NoDup_cons. split; [|done].
        intros Hr. apply (Hdisj _ Hr). left.
      * intros r' [->|Hr']%elem_of_cons; [done|].
        intros Hs. apply (Hdisj _ Hr'). by right.
Qed.

Lemma mask_select_duplicated_elem_of rs : ∀ seen r,
  r ∈ rs → r ∈ seen ∨ r ∈ mask_select (negb <$> duplicated_from seen rs) rs.
Proof.
  induction rs as [|r0 rs IH]; intros seen r; simpl; [by intros ?%elem_of_nil|].
  intros [->|Hr]%elem_of_cons; case_decide as Hin; simpl.
  - by left.
  - right; left.
  - by apply IH.
  - destruct (IH (r0 :: seen) r Hr) as [[->|?]%elem_of_cons|?].
    + right; left.
    + by left.
    + right; by right.
Qed.

End duplicated.

(** On a frame with a column, the duplicate removal is the boolean
    indexing by the negated flags, also when the frame has no row. *)
Lemma drop_duplicates_boolean_index df :
  columns df ≠ [] →
  rows (drop_duplicates df) = mask_select (negb <$> duplicated df) (rows df)
  ∧ index (drop_duplicates df) = mask_select (negb <$> duplicated df) (index df).
Proof.
  intros Hcols. unfold drop_duplicates, empty_frame. case_bool_decide as He.
  - destruct He as [Hidx|?]; [|done].
    assert (rows df = []) as Hrows.
    { pose proof (rows_length_index df) as Hlen. rewrite Hidx in Hlen.
      destruct (rows df); [done|simpl in Hlen; lia]. }
    unfold duplicated. by rewrite Hrows, Hidx.
  - split; [apply rows_boolean_index|done].
Qed.

Example repeated_rows_dropped :
  drop_duplicates repeated_rows
  = mkFrame [0; 1; 3]%nat
      [("CUST_ID"%string, mkSeries object_ [Str "A"; Str "B"; Str "A"]);
       ("BALANCE"%string, mkSeries float64 [qz 1; qz 2; qz 5])].
Proof. vm_compute. reflexivity. Qed.

(** ** The duplicate removal *)

(** C4. On every table (one with at least one column, as [read_csv]
    returns), the duplicate removal drops exactly the rows that equal an
    earlier row in every column, identifier included: a flag list [keep]
    is false at position [i] exactly when row [i] occurs among the rows
    before it, and the surviving rows and row labels are those flagged
    true, in their original order.  Each distinct row survives once. *)
Theorem drop_duplicates_keeps_first (df : DataFrame) :
  columns df ≠ [] →
  ∃ keep : list bool,
    length keep = length (rows df)
    ∧ (∀ i r, rows df !! i = Some r →
         keep !! i = Some (bool_decide (r ∉ take i (rows df))))
    ∧ rows (drop_duplicates df) = mask_select keep (rows df)
    ∧ index (drop_duplicates df) = mask_select keep (index df)
    ∧ rows (drop_duplicates df) `sublist_of` rows df
    ∧ NoDup (rows (drop_duplicates df))
    ∧ (∀ r, r ∈ rows df ↔ r ∈ rows (drop_duplicates df)).
Proof.
  intros Hcols. exists (negb <$> duplicated df).
  destruct (drop_duplicates_boolean_index df Hcols) as [Hrows Hindex].
  split_and!.
  - unfold duplicated. by rewrite length_fmap, duplicated_from_length.
  - intros i r Hr. unfold duplicated.
    rewrite list_lookup_fmap, (duplicated_from_lookup _ _ _ _ Hr). simpl. f_equal.
    rewrite <-bool_decide_not. apply bool_decide_ext.
    split; [intros H ?; apply H; by right|].
    intros H [?%elem_of_nil|?]; done.
  - done.
  - done.
  - rewrite Hrows. apply mask_select_sublist.
  - rewrite Hrows. apply mask_select_duplicated_NoDup.
  - intros r. rewrite Hrows. split.
    + intros Hr.
      by destruct (mask_select_duplicated_elem_of _ [] r Hr) as [?%elem_of_nil|?].
    + intros Hr. eapply elem_of_sublist; [exact Hr|apply mask_select_sublist].
Qed.

Lemma drop_duplicates_keeps_first_witness :
  ∃ keep : list bool,
    length keep = length (rows repeated_rows)
    ∧ (∀ i r, rows repeated_rows !! i = Some r →
         keep !! i = Some (bool_decide (r ∉ take i (rows repeated_rows))))
    ∧ rows (drop_duplicates repeated_rows) = mask_select keep (rows repeated_rows)
    ∧ index (drop_duplicates repeated_rows) = mask_select keep (index repeated_rows)
    ∧ rows (drop_duplicates repeated_rows) `sublist_of` rows repeated_rows
    ∧ NoDup (rows (drop_duplicates repeated_rows))
    ∧ (∀ r, r ∈ rows repeated_rows ↔ r ∈ rows (drop_duplicates repeated_rows)).
Proof.
  apply (drop_duplicates_keeps_first repeated_rows). simpl. discriminate.
Defined.

(** C9. A second duplicate removal changes nothing. *)
Theorem drop_duplicates_idempotent (df : DataFrame) :
  drop_duplicates (drop_duplicates df) = drop_duplicates df.
Proof.
  unfold drop_duplicates at 2 3. destruct (empty_frame df) eqn:He.
  { unfold drop_duplicates. by rewrite He. }
  set (m := negb <$> duplicated df).
  set (N := length (filter (λ b, b = true) m)).
  unfold drop_duplicates. destruct (empty_frame (boolean_index m df)); [done|].
  assert (length m = length (rows df)) as Hm
    by (unfold m, duplicated; by rewrite length_fmap, duplicated_from_length).
  assert (rows (boolean_index m df) = mask_select m (rows df)) as Hrows
    by apply rows_boolean_index.
  assert (length (rows (boolean_index m df)) = N) as HN
    by (rewrite Hrows; apply mask_select_length; lia).
  assert (negb <$> duplicated (boolean_index m df) = replicate N true) as ->.
  { unfold duplicated at 1. rewrite duplicated_from_NoDup.
    - by rewrite HN, fmap_replicate.
    - rewrite Hrows. apply mask_select_duplicated_NoDup.
    - intros r _. apply not_elem_of_nil. }
  unfold boolean_index; cbn [index columns]. f_equal.
  - apply mask_select_all, mask_select_length_le.
  - rewrite <-list_fmap_compose. apply list_fmap_ext. intros i [n s] _; simpl.
    do 2 f_equal. apply mask_select_all, mask_select_length_le.
Qed.

(** ** Missing values after the residual fill *)

Lemma isnull_sum_sum_fillna_frame v df :
  isnull v = false → isnull_sum_sum (fillna_frame v df) = 0%nat.
Proof.
  intros Hv. unfold isnull_sum_sum, fillna_frame; cbn [columns].
  induction (columns df) as [|[n s] cs IH]; [done|].
  rewrite !fmap_cons. cbn [sum_list snd]. rewrite IH.
  by rewrite isnull_sum_fillna.
Qed.

(** C2. For every input table, the table handed to [to_csv], after the
    imputation, the duplicate removal and the residual fill, holds no
    missing value. *)
Theorem preprocess_no_missing (df : DataFrame) :
  isnull_sum_sum (preprocess_data df) = 0%nat.
Proof.
  unfold preprocess_data, fallback_fill. case_decide as H; [|lia].
  by apply isnull_sum_sum_fillna_frame.
Qed.

(** C10. When a missing value is left after imputation and duplicate
    removal, the residual fill puts 0 in place of every missing entry of
    every column, whatever the column's type, and keeps the other
    entries; the imputation loop itself leaves a column that is not
    numeric (such as an identifier column) as it was. *)
Theorem fallback_fills_every_column (df : DataFrame) :
  (0 < isnull_sum_sum (drop_duplicates (imputer df)))%nat →
  index (preprocess_data df) = index (drop_duplicates (imputer df))
  ∧ columns (preprocess_data df)
    = (λ c, (c.1, mkSeries (dtype_of c.2)
                    ((λ x, if isnull x then Num 0 else x) <$> values c.2)))
        <$> columns (drop_duplicates (imputer df))
  ∧ (∀ col s, NoDup (columns df).*1 → getitem df col = Some s →
       dtype_of s ∉ numeric_dtypes → getitem (imputer df) col = Some s).
Proof.
  intros Hrem. unfold preprocess_data, fallback_fill.
  rewrite decide_True by done. split_and!; [done|done|].
  intros col s. apply imputer_untouched.
Qed.

Lemma fallback_fills_every_column_witness :
  index (preprocess_data customers) = index (drop_duplicates (imputer customers))
  ∧ columns (preprocess_data customers)
    = (λ c, (c.1, mkSeries (dtype_of c.2)
                    ((λ x, if isnull x then Num 0 else x) <$> values c.2)))
        <$> columns (drop_duplicates (imputer customers))
  ∧ (∀ col s, NoDup (columns customers).*1 → getitem customers col = Some s →
       dtype_of s ∉ numeric_dtypes → getitem (imputer customers) col = Some s).
Proof.
  apply (fallback_fills_every_column customers). vm_compute. lia.
Defined.

(** The missing identifier of [customers] is written as 0, the missing
    balance as the median of the two balances present. *)
Example customers_preprocessed :
  preprocess_data customers
  = mkFrame (seq 0 3)
      [("CUST_ID"%string, mkSeries object_ [Str "C10001"; qz 0; Str "C10003"]);
       ("BALANCE"%string, mkSeries float64 [qz 40; qz 900; qz 470])].
Proof. apply (bool_decide_eq_true_1 _). vm_compute. reflexivity. Qed.

(** The one-column table [100, missing, 300, 300, missing, 100]: both
    gaps become 200, the median of the four balances present, and the
    duplicate removal then leaves the three distinct rows 100, 200, 300,
    each at its first position. *)
Example balance_preprocessed :
  imputer balance_frame
  = mkFrame (seq 0 6)
      [("BALANCE"%string,
        mkSeries float64 [qz 100; qz 200; qz 300; qz 300; qz 200; qz 100])]
  ∧ preprocess_data balance_frame
    = mkFrame [0; 1; 2]%nat
        [("BALANCE"%string, mkSeries float64 [qz 100; qz 200; qz 300])].
Proof.
  split; apply (bool_decide_eq_true_1 _); vm_compute; reflexivity.
Qed.

(** ** The Standardizer *)

Module StandardizerFacts.
Import Standardizer.

Global Instance ScalingParameters_eq_dec : EqDecision ScalingParameters.
Proof. solve_decision. Defined.











Lemma Qc_square_0 (q : Qc) : q * q = 0 → q = 0.
Proof. intros H. by destruct (Qcmult_integral _ _ H). Qed.





End StandardizerFacts.



(** ** Selecting the best restart *)

Module ClusterFitterFacts.
Import ClusterFitter.

Lemma fit_le_inertia a b : fit_le a b → inertia a ≤ inertia b.
Proof.
  intros [Hlt|[-> _]]; [by apply Qclt_le_weak|apply Qcle_refl].
Qed.

Lemma fit_le_refl a : fit_le a a.
Proof. right. split; [done|lia]. Qed.

Lemma fit_le_trans a b c : fit_le a b → fit_le b c → fit_le a c.
Proof.
  intros [H1|[H1 H1']] [H2|[H2 H2']].
  - left. by eapply Qclt_trans.
  - left. by rewrite <-H2.
  - left. by rewrite H1.
  - right. split; [congruence|lia].
Qed.

Lemma fit_le_antisym a b :
  fit_le a b → fit_le b a → inertia a = inertia b ∧ restart a = restart b.
Proof.
  intros [H1|[H1 H1']] [H2|[H2 H2']].
  - destruct (Qclt_not_le _ _ H1). by apply Qclt_le_weak.
  - rewrite H2 in H1. by destruct (Qclt_not_eq _ _ H1).
  - rewrite H1 in H2. by destruct (Qclt_not_eq _ _ H2).
  - split; [done|lia].
Qed.

Lemma better_cases a b : better a b = a ∨ better a b = b.
Proof. unfold better. case_decide; auto. Qed.

Lemma better_le_l a b : fit_le (better a b) a.
Proof.
  unfold better. case_decide as H; [|apply fit_le_refl].
  destruct H as [H|[H H']]; [by left|]. right. split; [done|lia].
Qed.

Lemma better_le_r a b : fit_le (better a b) b.
Proof.
  unfold better. case_decide as H; [apply fit_le_refl|].
  destruct (Qclt_le_dec (inertia b) (inertia a)) as [Hlt|Hle]; [destruct H; by left|].
  destruct (decide (inertia a = inertia b)) as [Heq|Hne].
  - right. split; [done|].
    destruct (decide (restart a ≤ restart b)%nat); [done|].
    destruct H. right. split; [done|lia].
  - left. apply Qcle_lt_or_eq in Hle as [?|?]; [done|congruence].
Qed.

Lemma foldl_better_elem_of rs : ∀ r, foldl better r rs ∈ r :: rs.
Proof.
  induction rs as [|x rs IH]; intros r; simpl; [left|].
  specialize (IH (better r x)).
  apply elem_of_cons in IH as [->|?]; [|by do 2 right].
  destruct (better_cases r x) as [->| ->]; [left|right; left].
Qed.

Lemma foldl_better_le rs : ∀ r x, x ∈ r :: rs → fit_le (foldl better r rs) x.
Proof.
  induction rs as [|y rs IH]; intros r x; simpl.
  - intros [->|?%elem_of_nil]%elem_of_cons; [apply fit_le_refl|done].
  - intros Hx. assert (fit_le (foldl better (better r y) rs) (better r y)) as Hb
      by (apply IH; left).
    apply elem_of_cons in Hx as [->|[->|Hx]%elem_of_cons].
    + eapply fit_le_trans; [exact Hb|apply better_le_l].
    + eapply fit_le_trans; [exact Hb|apply better_le_r].
    + apply IH. by right.
Qed.

(** The selected restart is one of the list and at least as good as each. *)
Lemma select_Some rs best :
  select rs = Some best → best ∈ rs ∧ ∀ x, x ∈ rs → fit_le best x.
Proof.
  destruct rs as [|r rs]; [done|]. intros [= <-].
  split; [apply foldl_better_elem_of|apply foldl_better_le].
Qed.

Lemma select_is_Some rs : rs ≠ [] → is_Some (select rs).
Proof. destruct rs; [done|]. by eexists. Qed.

Section restarts.
Variable init : Z → nat → list point → nat → list point.
Variables (seed : Z) (k : nat) (X : list point).

Lemma restart_run_restart i : restart (run_restart init seed k X i) = i.
Proof. unfold run_restart. by destruct (lloyd _ _ _ _). Qed.

Lemma fit_in_order_Some order best :
  fit_in_order init seed k X order = Some best →
  (∃ i, i ∈ order ∧ best = run_restart init seed k X i)
  ∧ ∀ i, i ∈ order → fit_le best (run_restart init seed k X i).
Proof.
  unfold fit_in_order. intros [Hin Hle]%select_Some. split.
  - apply list_elem_of_fmap in Hin as (i & -> & Hi). eauto.
  - intros i Hi. apply Hle, list_elem_of_fmap. eauto.
Qed.

(** The order in which the restarts complete does not matter: the best
    restart is the least one of a total order on (inertia, number). *)
Lemma fit_in_order_Permutation order1 order2 :
  order1 ≡ₚ order2 →
  fit_in_order init seed k X order1 = fit_in_order init seed k X order2.
Proof.
  intros Hperm.
  destruct (fit_in_order init seed k X order1) as [b1|] eqn:E1,
           (fit_in_order init seed k X order2) as [b2|] eqn:E2.
  - apply fit_in_order_Some in E1 as [(i1 & Hi1 & ->) Hle1].
    apply fit_in_order_Some in E2 as [(i2 & Hi2 & ->) Hle2].
    assert (i1 = i2) as ->; [|done].
    rewrite <-(restart_run_restart i1), <-(restart_run_restart i2).
    apply fit_le_antisym; [apply Hle1; by rewrite Hperm|apply Hle2; by rewrite <-Hperm].
  - unfold fit_in_order in *. destruct order2 as [|i2 order2]; [|done].
    apply Permutation_nil_r in Hperm as ->. done.
  - unfold fit_in_order in *. destruct order1 as [|i1 order1]; [|done].
    symmetry in Hperm. apply Permutation_nil_r in Hperm as ->. done.
  - done.
Qed.

End restarts.

End ClusterFitterFacts.

(** C6. With at least one restart, the fit returns one of the restarts
    performed, and its inertia is at most the final inertia of every
    restart performed. *)
Theorem selected_restart_least_inertia
    (init : Z → nat → list point → nat → list point)
    (seed : Z) (k : nat) (X : list point) (n_init : nat) :
  (0 < n_init)%nat →
  ∃ best,
    ClusterFitter.fit init seed k X n_init = Some best
    ∧ (∃ i, (i < n_init)%nat ∧ best = ClusterFitter.run_restart init seed k X i)
    ∧ ∀ i, (i < n_init)%nat →
        ClusterFitter.inertia best
        ≤ ClusterFitter.inertia (ClusterFitter.run_restart init seed k X i).
Proof.
  intros Hpos. unfold ClusterFitter.fit.
  destruct (ClusterFitterFacts.select_is_Some
              (ClusterFitter.run_restart init seed k X <$> seq 0 n_init))
    as [best Hbest].
  { destruct n_init; [lia|done]. }
  exists best. split; [exact Hbest|].
  apply ClusterFitterFacts.fit_in_order_Some in Hbest as [(i & Hi & ->) Hle].
  split.
  - exists i. split; [|done]. apply elem_of_seq in Hi. lia.
  - intros j Hj. apply ClusterFitterFacts.fit_le_inertia, Hle, elem_of_seq. lia.
Qed.

Lemma selected_restart_least_inertia_witness :
  ∃ best,
    ClusterFitter.fit ClusterFitter.rows_from_offset 42 2 five_points 10 = Some best
    ∧ (∃ i, (i < 10)%nat
          ∧ best = ClusterFitter.run_restart ClusterFitter.rows_from_offset
                     42 2 five_points i)
    ∧ ∀ i, (i < 10)%nat →
        ClusterFitter.inertia best
        ≤ ClusterFitter.inertia
            (ClusterFitter.run_restart ClusterFitter.rows_from_offset
               42 2 five_points i).
Proof.
  apply (selected_restart_least_inertia ClusterFitter.rows_from_offset
           42 2 five_points 10).
  lia.
Defined.

(** The first restart of [five_points] already reaches the least inertia. *)
Example five_points_fit :
  (λ m, (ClusterFitter.restart m, Qcanon.this (ClusterFitter.inertia m)))
    <$> ClusterFitter.KMeans_fit 2 42 10 five_points
  = Some (0%nat, (187 # 6)%Q).
Proof. vm_compute. reflexivity. Qed.

(** C7. Two fits of the same table with the same seed and the same
    number of restarts return the same model, centroids and inertia alike,
    in whatever order each of them completes its restarts. *)
Theorem fit_same_seed_same_model
    (init : Z → nat → list point → nat → list point)
    (seed : Z) (k : nat) (X : list point) (n_init : nat)
    (order1 order2 : list nat) :
  order1 ≡ₚ seq 0 n_init →
  order2 ≡ₚ seq 0 n_init →
  ClusterFitter.fit_in_order init seed k X order1
  = ClusterFitter.fit_in_order init seed k X order2
  ∧ ClusterFitter.fit_in_order init seed k X order1
    = ClusterFitter.fit init seed k X n_init.
Proof.
  intros H1 H2. split.
  - apply ClusterFitterFacts.fit_in_order_Permutation. by rewrite H1, H2.
  - by apply ClusterFitterFacts.fit_in_order_Permutation.
Qed.

Lemma fit_same_seed_same_model_witness :
  ClusterFitter.fit_in_order ClusterFitter.rows_from_offset 42 2 five_points
    (seq 0 10)
  = ClusterFitter.fit_in_order ClusterFitter.rows_from_offset 42 2 five_points
      (reverse (seq 0 10))
  ∧ ClusterFitter.fit_in_order ClusterFitter.rows_from_offset 42 2 five_points
      (seq 0 10)
    = ClusterFitter.fit ClusterFitter.rows_from_offset 42 2 five_points 10.
Proof.
  apply (fit_same_seed_same_model ClusterFitter.rows_from_offset 42 2
           five_points 10 (seq 0 10) (reverse (seq 0 10))).
  - reflexivity.
  - apply reverse_Permutation.
Defined.

(** ** The training stage *)

Section train_facts.
Context {Scaler Matrix Model : Type}.
Variable fit_transform : DataFrame → option (Scaler * Matrix).
Variable KMeans_fit : Z → Z → nat → Matrix → option Model.
Variable inertia_ : Model → Qc.

(** Past the check, a run ends with the results or with an estimator's
    exception. *)
Lemma fit_and_report_not_NaN df k :
  fit_and_report fit_transform KMeans_fit inertia_ df k ≠ Err NaNValuesDetected.
Proof.
  unfold fit_and_report.
  destruct (fit_transform df) as [[scaler X]|]; simpl; [|done].
  destruct (KMeans_fit _ _ _ _); simpl; done.
Qed.

Lemma train_model_checked df k :
  train_model fit_transform KMeans_fit inertia_ df k
  = if decide (0 < isnull_sum_sum (drop_customer_id df))%nat
    then Err NaNValuesDetected
    else fit_and_report fit_transform KMeans_fit inertia_ (drop_customer_id df) k.
Proof. unfold train_model, check_nan. by case_decide. Qed.

End train_facts.

(** C3, amended. Whatever the estimators do, the training stage raises
    its missing-value error exactly when the table left after the CUST_ID
    column has been dropped holds a missing value; when it holds none,
    that table goes to the scaler as it is, with nothing filled in. *)
Theorem train_model_nan_check {Scaler Matrix Model : Type}
    (fit_transform : DataFrame → option (Scaler * Matrix))
    (KMeans_fit : Z → Z → nat → Matrix → option Model)
    (inertia_ : Model → Qc) (df : DataFrame) (k : Z) :
  (train_model fit_transform KMeans_fit inertia_ df k = Err NaNValuesDetected
     ↔ (0 < isnull_sum_sum (drop_customer_id df))%nat)
  ∧ (isnull_sum_sum (drop_customer_id df) = 0%nat →
       train_model fit_transform KMeans_fit inertia_ df k
       = fit_and_report fit_transform KMeans_fit inertia_ (drop_customer_id df) k).
Proof.
  rewrite train_model_checked. split.
  - case_decide as H; [done|]. split; [|done].
    intros Hf. by apply fit_and_report_not_NaN in Hf.
  - intros H0. rewrite decide_False; [done|lia].
Qed.

(** C3 as first stated does not hold: a cleaned table that holds a
    missing value, in its identifier column, never raises the
    missing-value error, and with the estimators above the run completes. *)
Lemma train_model_ignores_missing_id :
  (0 < isnull_sum_sum cleaned_missing_id)%nat
  ∧ (∀ (Scaler Matrix Model : Type)
       (fit_transform : DataFrame → option (Scaler * Matrix))
       (KMeans_fit : Z → Z → nat → Matrix → option Model)
       (inertia_ : Model → Qc),
       train_model fit_transform KMeans_fit inertia_ cleaned_missing_id 2
       ≠ Err NaNValuesDetected)
  ∧ ∃ out,
      train_model Standardizer.fit_transform ClusterFitter.KMeans_fit
        ClusterFitter.inertia cleaned_missing_id 2 = Ok out.
Proof.
  split_and!.
  - vm_compute. lia.
  - intros Scaler Matrix Model fit_transform KMeans_fit inertia_.
    rewrite train_model_checked. rewrite decide_False by (vm_compute; lia).
    apply fit_and_report_not_NaN.
  - eexists. vm_compute. reflexivity.
Qed.

(** C8. A run that completes writes a metrics record with exactly the
    fields n_clusters, inertia, n_samples and n_features, and n_clusters
    is the cluster count the run was given, whatever model the clustering
    returned. *)
Theorem metrics_n_clusters {Scaler Matrix Model : Type}
    (fit_transform : DataFrame → option (Scaler * Matrix))
    (KMeans_fit : Z → Z → nat → Matrix → option Model)
    (inertia_ : Model → Qc) (df : DataFrame) (k : Z) (out : Trained) :
  train_model fit_transform KMeans_fit inertia_ df k = Ok out →
  dom (metrics out) = {["n_clusters"; "inertia"; "n_samples"; "n_features"]}
  ∧ metrics out !! "n_clusters" = Some (JInt k)
  ∧ metrics out !! "inertia" = Some (JFloat (inertia_ (pickled out).1))
  ∧ metrics out !! "n_samples" = Some (JInt (Z.of_nat (len (drop_customer_id df))))
  ∧ metrics out !! "n_features"
    = Some (JInt (Z.of_nat (n_columns (drop_customer_id df)))).
Proof.
  rewrite train_model_checked. case_decide; [done|]. unfold fit_and_report.
  destruct (fit_transform _) as [[scaler X]|]; simpl; [|done].
  destruct (KMeans_fit _ _ _ _) as [kmeans|]; simpl; [|done].
  intros [= <-]; simpl. split_and!.
  - rewrite !dom_insert_L, dom_empty_L. set_solver.
  - done.
  - done.
  - done.
  - done.
Qed.

Lemma metrics_n_clusters_witness :
  ∃ out,
    train_model Standardizer.fit_transform ClusterFitter.KMeans_fit
      ClusterFitter.inertia cleaned_missing_id 2 = Ok out
    ∧ dom (metrics out) = {["n_clusters"; "inertia"; "n_samples"; "n_features"]}
    ∧ metrics out !! "n_clusters" = Some (JInt 2).
Proof.
  destruct (train_model Standardizer.fit_transform ClusterFitter.KMeans_fit
              ClusterFitter.inertia cleaned_missing_id 2) as [out|e] eqn:Hrun.
  - exists out. split; [done|].
    destruct (metrics_n_clusters Standardizer.fit_transform
                ClusterFitter.KMeans_fit ClusterFitter.inertia
                cleaned_missing_id 2 out Hrun) as (Hdom & Hk & _).
    by split.
  - exfalso. vm_compute in Hrun. discriminate Hrun.
Defined.

(** * Further properties of the two stages *)

(** ** What the imputation loop keeps *)

Section assign.
Implicit Types (cs : list (string * Series)) (s : Series) (col : string).

Lemma assign_col_schema col s s' cs :
  lookup_col col cs = Some s → dtype_of s' = dtype_of s →
  (λ c, (c.1, dtype_of c.2)) <$> assign_col col s' cs
  = (λ c, (c.1, dtype_of c.2)) <$> cs.
Proof.
  intros Hlook Hdt. induction cs as [|[n s0] cs IH]; [done|]. simpl in *.
  destruct (decide (n = col)) as [->|Hne].
  - injection Hlook as ->. simpl. by rewrite Hdt.
  - simpl. f_equal. by apply IH.
Qed.

Lemma assign_col_lengths col s s' cs :
  lookup_col col cs = Some s → length (values s') = length (values s) →
  (λ c, length (values c.2)) <$> assign_col col s' cs
  = (λ c, length (values c.2)) <$> cs.
Proof.
  intros Hlook Hlen. induction cs as [|[n s0] cs IH]; [done|]. simpl in *.
  destruct (decide (n = col)) as [->|Hne].
  - injection Hlook as ->. simpl. by rewrite Hlen.
  - simpl. f_equal. by apply IH.
Qed.

End assign.

Lemma impute_col_shape df col :
  index (impute_col df col) = index df
  ∧ schema (impute_col df col) = schema df
  ∧ (λ c, length (values c.2)) <$> columns (impute_col df col)
    = (λ c, length (values c.2)) <$> columns df.
Proof.
  unfold impute_col. destruct (getitem df col) as [s|] eqn:Hget; [|done].
  case_decide; [|done]. unfold schema, setitem; cbn [index columns].
  split_and!; [done| |].
  - by apply (assign_col_schema _ s).
  - apply (assign_col_lengths _ s); [done|]. simpl. by rewrite length_fmap.
Qed.

Lemma foldl_impute_col_shape cols : ∀ df,
  index (foldl impute_col df cols) = index df
  ∧ schema (foldl impute_col df cols) = schema df
  ∧ (λ c, length (values c.2)) <$> columns (foldl impute_col df cols)
    = (λ c, length (values c.2)) <$> columns df.
Proof.
  induction cols as [|c cols IH]; intros df; cbn [foldl]; [done|].
  destruct (IH (impute_col df c)) as (-> & -> & ->). apply impute_col_shape.
Qed.

Lemma imputer_shape df :
  index (imputer df) = index df
  ∧ schema (imputer df) = schema df
  ∧ (λ c, length (values c.2)) <$> columns (imputer df)
    = (λ c, length (values c.2)) <$> columns df.
Proof. apply foldl_impute_col_shape. Qed.

(** The imputation loop adds, removes and reorders nothing: the row
    labels, the column labels with their dtypes, and the number of entries
    of every column are those of the input. *)
Theorem imputer_keeps_shape (df : DataFrame) :
  index (imputer df) = index df
  ∧ schema (imputer df) = schema df
  ∧ (λ c, length (values c.2)) <$> columns (imputer df)
    = (λ c, length (values c.2)) <$> columns df.
Proof.
  destruct (imputer_shape df) as (Hidx & Hschema & Hlen). by split_and!.
Qed.

(** After the loop, no column of a selected numeric dtype holds a missing
    entry. *)
Theorem imputer_numeric_complete (df : DataFrame) (col : string) (s : Series) :
  getitem (imputer df) col = Some s → dtype_of s ∈ numeric_dtypes →
  NaN ∉ values s.
Proof.
  unfold imputer. rewrite getitem_foldl_impute. intros Hget Hdt.
  assert (∀ s0, NaN ∉ values (impute_series s0)) as Hdone.
  { intros s0. rewrite <-isnull_sum_pos. unfold impute_series.
    destruct (decide (0 < isnull_sum s0)%nat) as [Hm|Hm]; [|exact Hm].
    rewrite isnull_sum_fillna by apply fill_value_of_notnull. lia. }
  case_decide as Hin.
  - destruct (getitem df col) as [s0|]; [|done]. injection Hget as <-. apply Hdone.
  - destruct Hin. by eapply numeric_col_selected.
Qed.

Lemma imputer_numeric_complete_witness :
  NaN ∉ [qz 100; qz 200; qz 300; qz 300; qz 200; qz 100].
Proof.
  apply (imputer_numeric_complete balance_frame "BALANCE"
           (mkSeries float64 [qz 100; qz 200; qz 300; qz 300; qz 200; qz 100])).
  - apply (bool_decide_eq_true_1 _). vm_compute. reflexivity.
  - simpl. left.
Defined.

Section by_label.
Implicit Types (cs : list (string * Series)) (s : Series) (col : string).

Lemma lookup_col_None col cs : col ∉ cs.*1 → lookup_col col cs = None.
Proof.
  induction cs as [|[n s] cs IH]; [done|]. simpl.
  rewrite not_elem_of_cons. intros [Hne Hin].
  rewrite decide_False by done. by apply IH.
Qed.

Lemma lookup_col_fmap (h : Series → Series) col cs :
  lookup_col col ((λ c, (c.1, h c.2)) <$> cs) = h <$> lookup_col col cs.
Proof.
  induction cs as [|[n s] cs IH]; [done|]. simpl.
  destruct (decide (n = col)); [done|apply IH].
Qed.

(** Columns with distinct labels are determined by what each label
    looks up. *)
Lemma columns_eq_by_label cs1 : ∀ cs2,
  cs1.*1 = cs2.*1 → NoDup cs1.*1 →
  (∀ col, lookup_col col cs1 = lookup_col col cs2) → cs1 = cs2.
Proof.
  induction cs1 as [|[n s] cs1 IH]; intros [|[n' s'] cs2]; simpl; try done.
  intros [= <- Hnames] [Hn Hnd]%NoDup_cons Hlook. f_equal.
  - specialize (Hlook n). rewrite !decide_True in Hlook by done. congruence.
  - apply IH; [done|done|]. intros col. destruct (decide (n = col)) as [<-|Hne].
    + rewrite (lookup_col_None n cs1) by done.
      rewrite (lookup_col_None n cs2); [done|].
      intros Hin. apply Hn. revert Hin. unfold fmap in *. by rewrite Hnames.
    + specialize (Hlook col). by rewrite !decide_False in Hlook.
Qed.

End by_label.

Lemma schema_names df : (schema df).*1 = (columns df).*1.
Proof.
  unfold schema. rewrite <-list_fmap_compose. by apply list_fmap_ext.
Qed.

Lemma imputer_by_column df :
  NoDup (columns df).*1 →
  columns (imputer df)
  = (λ c, (c.1, if decide (dtype_of c.2 ∈ numeric_dtypes)
                then impute_series c.2 else c.2)) <$> columns df.
Proof.
  intros Hnd.
  set (h := λ s, if decide (dtype_of s ∈ numeric_dtypes) then impute_series s else s).
  apply columns_eq_by_label.
  - destruct (imputer_shape df) as (_ & Hs & _).
    rewrite <-schema_names, Hs, schema_names.
    rewrite <-list_fmap_compose. by apply list_fmap_ext.
  - destruct (imputer_shape df) as (_ & Hs & _).
    by rewrite <-schema_names, Hs, schema_names.
  - intros col. rewrite (lookup_col_fmap h).
    change (lookup_col col (columns (imputer df))) with (getitem (imputer df) col).
    change (lookup_col col (columns df)) with (getitem df col).
    destruct (getitem df col) as [s|] eqn:Hget; simpl.
    + unfold h. case_decide as Hdt.
      * by apply getitem_imputer_numeric.
      * by apply imputer_untouched.
    + unfold imputer. rewrite getitem_foldl_impute, Hget. by case_decide.
Qed.

(** With distinct column labels, the loop over the labels is a pass over
    the columns: each column of a selected numeric dtype is replaced by
    its imputed version, every other column and the order are kept. *)
Theorem imputer_columns (df : DataFrame) :
  NoDup (columns df).*1 →
  columns (imputer df)
  = (λ c, (c.1, if decide (dtype_of c.2 ∈ numeric_dtypes)
                then impute_series c.2 else c.2)) <$> columns df.
Proof. intros Hnd. by rewrite imputer_by_column. Qed.

Lemma imputer_columns_witness :
  columns (imputer customers)
  = (λ c, (c.1, if decide (dtype_of c.2 ∈ numeric_dtypes)
                then impute_series c.2 else c.2)) <$> columns customers.
Proof.
  apply (imputer_columns customers). apply (bool_decide_eq_true_1 _).
  vm_compute. reflexivity.
Defined.

Lemma impute_series_dtype s : dtype_of (impute_series s) = dtype_of s.
Proof. unfold impute_series. by case_decide. Qed.

(** With distinct column labels, a second run of the imputation loop
    changes nothing. *)
Theorem imputer_idempotent (df : DataFrame) :
  NoDup (columns df).*1 → imputer (imputer df) = imputer df.
Proof.
  intros Hnd.
  assert (NoDup (columns (imputer df)).*1) as Hnd'.
  { destruct (imputer_shape df) as (_ & Hs & _).
    by rewrite <-schema_names, Hs, schema_names. }
  destruct (imputer_shape (imputer df)) as (Hidx & _ & _).
  pose proof (imputer_by_column _ Hnd') as Hcols.
  destruct (imputer (imputer df)) as [idx cs], (imputer df) as [idx' cs'] eqn:E.
  simpl in *. subst idx. f_equal. rewrite Hcols.
  replace cs' with (columns (imputer df)) by (by rewrite E).
  rewrite (imputer_by_column _ Hnd), <-list_fmap_compose.
  apply list_fmap_ext. intros i [n s] _. simpl. f_equal.
  destruct (decide (dtype_of s ∈ numeric_dtypes)) as [Hdt|Hdt].
  - rewrite decide_True by (by rewrite impute_series_dtype).
    apply impute_series_idemp.
  - by rewrite decide_False.
Qed.

Lemma imputer_idempotent_witness :
  imputer (imputer customers) = imputer customers.
Proof.
  apply (imputer_idempotent customers). apply (bool_decide_eq_true_1 _).
  vm_compute. reflexivity.
Defined.

(** ** Tables without missing values *)

Lemma isnull_sum_sum_zero df n s :
  isnull_sum_sum df = 0%nat → (n, s) ∈ columns df → isnull_sum s = 0%nat.
Proof.
  unfold isnull_sum_sum. induction (columns df) as [|[n' s'] cs IH].
  - by intros _ ?%elem_of_nil.
  - rewrite fmap_cons. cbn [sum_list snd]. unfold id.
    intros [Hs Hcs]%Nat.eq_add_0 [[= -> ->]|Hin]%elem_of_cons; [done|].
    by apply IH.
Qed.

Lemma impute_col_complete df col :
  isnull_sum_sum df = 0%nat → impute_col df col = df.
Proof.
  intros H0. unfold impute_col. destruct (getitem df col) as [s|] eqn:Hget; [|done].
  rewrite decide_False; [done|].
  apply lookup_col_elem_of in Hget. rewrite (isnull_sum_sum_zero _ _ _ H0 Hget). lia.
Qed.

Lemma imputer_complete df : isnull_sum_sum df = 0%nat → imputer df = df.
Proof.
  intros H0. unfold imputer.
  induction (select_dtypes_columns numeric_dtypes df) as [|c cols IH]; [done|].
  cbn [foldl]. by rewrite impute_col_complete.
Qed.

Lemma isnull_mask_select m (l : list cell) :
  (length (filter (λ c, isnull c = true) (mask_select m l))
   ≤ length (filter (λ c, isnull c = true) l))%nat.
Proof.
  revert l. induction m as [|b m IH]; intros [|x l]; simpl; try lia.
  specialize (IH l). destruct b.
  - destruct (decide (isnull x = true)).
    + rewrite !filter_cons_True by done. simpl. lia.
    + by rewrite !filter_cons_False.
  - etrans; [exact IH|]. destruct (decide (isnull x = true)).
    + rewrite filter_cons_True by done. simpl. lia.
    + by rewrite filter_cons_False.
Qed.

Lemma isnull_sum_sum_boolean_index m df :
  (isnull_sum_sum (boolean_index m df) ≤ isnull_sum_sum df)%nat.
Proof.
  unfold isnull_sum_sum, boolean_index; cbn [columns].
  induction (columns df) as [|[n s] cs IH]; [done|].
  rewrite !fmap_cons. cbn [sum_list fst snd].
  apply Nat.add_le_mono; [apply isnull_mask_select|exact IH].
Qed.

(** Removing rows never adds a missing value. *)
Lemma isnull_sum_sum_drop_duplicates df :
  (isnull_sum_sum (drop_duplicates df) ≤ isnull_sum_sum df)%nat.
Proof.
  unfold drop_duplicates. destruct (empty_frame df); [done|].
  apply isnull_sum_sum_boolean_index.
Qed.

Lemma preprocess_complete df :
  isnull_sum_sum df = 0%nat → preprocess_data df = drop_duplicates df.
Proof.
  intros H0. unfold preprocess_data, fallback_fill.
  rewrite (imputer_complete _ H0).
  pose proof (isnull_sum_sum_drop_duplicates df).
  rewrite decide_False; [done|lia].
Qed.

(** On a table that holds no missing value, preprocessing is the
    duplicate removal and nothing else. *)
Theorem preprocess_complete_table (df : DataFrame) :
  isnull_sum_sum df = 0%nat → preprocess_data df = drop_duplicates df.
Proof. apply preprocess_complete. Qed.

Lemma preprocess_complete_table_witness :
  preprocess_data repeated_rows = drop_duplicates repeated_rows.
Proof. apply (preprocess_complete_table repeated_rows). reflexivity. Defined.

(** ** What preprocessing keeps of the input's shape *)

Lemma schema_boolean_index m df : schema (boolean_index m df) = schema df.
Proof.
  unfold schema, boolean_index; cbn [columns].
  rewrite <-list_fmap_compose. by apply list_fmap_ext.
Qed.

Lemma schema_drop_duplicates df : schema (drop_duplicates df) = schema df.
Proof.
  unfold drop_duplicates. destruct (empty_frame df); [done|apply schema_boolean_index].
Qed.

Lemma schema_fallback_fill df : schema (fallback_fill df) = schema df.
Proof.
  unfold fallback_fill. case_decide; [|done].
  unfold schema, fillna_frame; cbn [columns].
  rewrite <-list_fmap_compose. by apply list_fmap_ext.
Qed.

Lemma index_fallback_fill df : index (fallback_fill df) = index df.
Proof. unfold fallback_fill. by case_decide. Qed.

Lemma index_drop_duplicates df : index (drop_duplicates df) `sublist_of` index df.
Proof.
  unfold drop_duplicates. destruct (empty_frame df); [done|].
  apply mask_select_sublist.
Qed.

Lemma preprocess_schema df :
  schema (preprocess_data df) = schema df
  ∧ index (preprocess_data df) `sublist_of` index df.
Proof.
  unfold preprocess_data. destruct (imputer_shape df) as (Hidx & Hs & _). split.
  - by rewrite schema_fallback_fill, schema_drop_duplicates.
  - rewrite index_fallback_fill, <-Hidx. apply index_drop_duplicates.
Qed.

(** The written table has the columns of the input, with the same labels
    and dtypes in the same order (the identifier is kept), and its rows
    are rows of the input, in the input's order, so never more. *)
Theorem preprocess_keeps_schema (df : DataFrame) :
  schema (preprocess_data df) = schema df
  ∧ index (preprocess_data df) `sublist_of` index df
  ∧ (len (preprocess_data df) ≤ len df)%nat.
Proof.
  destruct (preprocess_schema df) as [Hs Hi]. split_and!; [done|done|].
  by apply sublist_length.
Qed.

(** ** Well-formed frames *)

Lemma well_formed_lengths df :
  well_formed df
  ↔ Forall (λ n, n = length (index df)) ((λ c, length (values c.2)) <$> columns df).
Proof. unfold well_formed. by rewrite Forall_fmap. Qed.

Lemma mask_select_length_congr {A B} m (l : list A) (k : list B) :
  length l = length k → length (mask_select m l) = length (mask_select m k).
Proof.
  revert l k. induction m as [|b m IH]; intros [|x l] [|y k]; simpl; try done.
  intros [= Hlen]. destruct b; simpl; by rewrite (IH l k).
Qed.

Lemma well_formed_imputer df : well_formed df → well_formed (imputer df).
Proof.
  rewrite !well_formed_lengths. destruct (imputer_shape df) as (-> & _ & ->). done.
Qed.

Lemma well_formed_boolean_index m df :
  well_formed df → well_formed (boolean_index m df).
Proof.
  unfold well_formed, boolean_index; cbn [index columns].
  rewrite Forall_fmap. intros Hwf. eapply Forall_impl; [exact Hwf|].
  intros [n s] Hlen; simpl in *. by apply mask_select_length_congr.
Qed.

Lemma well_formed_drop_duplicates df :
  well_formed df → well_formed (drop_duplicates df).
Proof.
  unfold drop_duplicates. destruct (empty_frame df); [done|].
  apply well_formed_boolean_index.
Qed.

Lemma well_formed_fallback_fill df :
  well_formed df → well_formed (fallback_fill df).
Proof.
  unfold fallback_fill. case_decide; [|done].
  unfold well_formed, fillna_frame; cbn [index columns].
  rewrite Forall_fmap. intros Hwf. eapply Forall_impl; [exact Hwf|].
  intros [n s] Hlen; simpl in *. by rewrite length_fmap.
Qed.

Lemma well_formed_preprocess df : well_formed df → well_formed (preprocess_data df).
Proof.
  intros Hwf. unfold preprocess_data.
  by apply well_formed_fallback_fill, well_formed_drop_duplicates, well_formed_imputer.
Qed.

(** If every column of the input has one entry per row, so has every
    column of the written table. *)
Theorem preprocess_keeps_well_formed (df : DataFrame) :
  well_formed df → well_formed (preprocess_data df).
Proof. apply well_formed_preprocess. Qed.

Lemma preprocess_keeps_well_formed_witness :
  well_formed (preprocess_data customers).
Proof.
  apply (preprocess_keeps_well_formed customers).
  unfold well_formed, customers; simpl. by repeat constructor.
Defined.

(** ** Tables without duplicates *)

Lemma rows_length_well_formed df :
  well_formed df → length (rows df) = length (index df).
Proof.
  unfold well_formed, rows. induction (columns df) as [|[n s] cs IH]; cbn [foldr].
  - by rewrite length_fmap.
  - intros [Hs Hcs]%Forall_cons. rewrite length_zip_with. simpl in Hs.
    cbn [snd]. rewrite Hs.
    transitivity (length (index df) `min` length (index df));
      [f_equal; exact (IH Hcs)|apply Nat.min_id].
Qed.

Lemma boolean_index_all n df :
  (length (index df) ≤ n)%nat →
  Forall (λ c, (length (values c.2) ≤ n)%nat) (columns df) →
  boolean_index (replicate n true) df = df.
Proof.
  intros Hidx Hcols. destruct df as [idx cs]. unfold boolean_index; simpl in *.
  f_equal; [by apply mask_select_all|].
  induction Hcols as [|[c [dt vs]] cs Hc _ IH]; [done|].
  rewrite fmap_cons, IH. simpl in *. by rewrite mask_select_all.
Qed.

Lemma drop_duplicates_distinct df :
  well_formed df → NoDup (rows df) → drop_duplicates df = df.
Proof.
  intros Hwf Hnd. unfold drop_duplicates. destruct (empty_frame df); [done|].
  unfold duplicated. rewrite duplicated_from_NoDup; [|done|].
  - rewrite fmap_replicate, (rows_length_well_formed _ Hwf). simpl.
    apply boolean_index_all; [done|].
    eapply Forall_impl; [exact Hwf|]. intros c Hc; simpl in Hc. lia.
  - intros r _. apply not_elem_of_nil.
Qed.

(** A well-formed table whose rows are pairwise distinct is returned by
    the duplicate removal as it is. *)
Theorem drop_duplicates_no_duplicates (df : DataFrame) :
  well_formed df → NoDup (rows df) → drop_duplicates df = df.
Proof. apply drop_duplicates_distinct. Qed.

Lemma drop_duplicates_no_duplicates_witness :
  drop_duplicates customers = customers.
Proof.
  apply (drop_duplicates_no_duplicates customers).
  - unfold well_formed, customers; simpl. by repeat constructor.
  - apply (bool_decide_eq_true_1 _). vm_compute. reflexivity.
Defined.

(** ** Running the preprocessing on its own output *)

Lemma drop_duplicates_again df :
  well_formed df → drop_duplicates (drop_duplicates df) = drop_duplicates df.
Proof.
  intros Hwf. unfold drop_duplicates at 2 3. destruct (empty_frame df) eqn:He.
  { unfold drop_duplicates. by rewrite He. }
  apply drop_duplicates_distinct.
  - by apply well_formed_boolean_index.
  - rewrite rows_boolean_index. apply mask_select_duplicated_NoDup.
Qed.

Lemma fallback_fill_complete df : isnull_sum_sum df = 0%nat → fallback_fill df = df.
Proof. intros H0. unfold fallback_fill. rewrite decide_False; [done|lia]. Qed.

(** When the residual fill has nothing to do, the written table is a
    fixed point of the stage: preprocessing it again returns it as it is. *)
Theorem preprocess_idempotent (df : DataFrame) :
  well_formed df →
  isnull_sum_sum (drop_duplicates (imputer df)) = 0%nat →
  preprocess_data (preprocess_data df) = preprocess_data df.
Proof.
  intros Hwf H0.
  assert (preprocess_data df = drop_duplicates (imputer df)) as ->
    by (unfold preprocess_data; by apply fallback_fill_complete).
  rewrite (preprocess_complete _ H0).
  by apply drop_duplicates_again, well_formed_imputer.
Qed.

Lemma preprocess_idempotent_witness :
  preprocess_data (preprocess_data balance_frame) = preprocess_data balance_frame.
Proof.
  apply (preprocess_idempotent balance_frame).
  - unfold well_formed, balance_frame; simpl. by repeat constructor.
  - vm_compute. reflexivity.
Defined.

(** When the residual fill has nothing to do, no two rows of the written
    table are equal. *)
Theorem preprocess_rows_distinct (df : DataFrame) :
  columns df ≠ [] →
  isnull_sum_sum (drop_duplicates (imputer df)) = 0%nat →
  NoDup (rows (preprocess_data df)).
Proof.
  intros Hcols H0.
  assert (preprocess_data df = drop_duplicates (imputer df)) as ->
    by (unfold preprocess_data; by apply fallback_fill_complete).
  assert (columns (imputer df) ≠ []) as Hcols'.
  { destruct (imputer_shape df) as (_ & Hs & _). intros Hnil.
    apply (f_equal length) in Hs. unfold schema in Hs.
    rewrite !length_fmap, Hnil in Hs. destruct (columns df); done. }
  destruct (drop_duplicates_boolean_index _ Hcols') as [-> _].
  apply mask_select_duplicated_NoDup.
Qed.

Lemma preprocess_rows_distinct_witness :
  NoDup (rows (preprocess_data balance_frame)).
Proof.
  apply (preprocess_rows_distinct balance_frame).
  - simpl. discriminate.
  - vm_compute. reflexivity.
Defined.

(** ** The median and the order of the rows *)

Lemma median_of_Permutation xs ys : xs ≡ₚ ys → median_of xs = median_of ys.
Proof.
  intros Hp. unfold median_of.
  assert (merge_sort float_le xs = merge_sort float_le ys) as ->; [|done].
  apply (Sorted_unique float_le); [apply Sorted_merge_sort, _..|].
  by rewrite !merge_sort_Permutation.
Qed.

(** The value a column is filled with does not depend on the order of
    the rows. *)
Theorem fill_value_row_order (s s' : Series) :
  values s ≡ₚ values s' → fill_value_of s = fill_value_of s'.
Proof.
  intros Hp. unfold fill_value_of, median, dropna_values.
  by rewrite (median_of_Permutation _ _ (omap_Permutation _ _ _ Hp)).
Qed.

Lemma fill_value_row_order_witness :
  fill_value_of balance
  = fill_value_of (mkSeries float64 (reverse (values balance))).
Proof.
  apply (fill_value_row_order balance (mkSeries float64 (reverse (values balance)))).
  simpl. symmetry. apply reverse_Permutation.
Defined.

(** ** The identifier drop *)

Lemma filter_label_id col (cs : list (string * Series)) :
  col ∉ cs.*1 → filter (λ c, c.1 ≠ col) cs = cs.
Proof.
  induction cs as [|[n s] cs IH]; [done|]. simpl.
  rewrite not_elem_of_cons. intros [Hne Hin].
  rewrite filter_cons_True by (simpl; congruence). by rewrite IH.
Qed.

Lemma drop_customer_id_columns df :
  columns (drop_customer_id df) = filter (λ c, c.1 ≠ "CUST_ID") (columns df).
Proof.
  unfold drop_customer_id, has_column. case_bool_decide as Hin; [done|].
  by rewrite filter_label_id.
Qed.

Lemma drop_customer_id_index df : index (drop_customer_id df) = index df.
Proof. unfold drop_customer_id. by destruct (has_column _ _). Qed.

Lemma lookup_col_filter_ne col col' (cs : list (string * Series)) :
  col ≠ col' →
  lookup_col col' (filter (λ c, c.1 ≠ col) cs) = lookup_col col' cs.
Proof.
  intros Hne. induction cs as [|[n s] cs IH]; [done|].
  destruct (decide (n = col)) as [->|Hn].
  - rewrite filter_cons_False by (simpl; tauto). simpl.
    by rewrite decide_False.
  - rewrite filter_cons_True by done. simpl. by rewrite IH.
Qed.

(** The identifier drop removes the column labelled CUST_ID and nothing
    else: the other columns keep their order and content, the rows keep
    their labels, and a table without that column is left as it is. *)
Theorem drop_customer_id_only (df : DataFrame) :
  index (drop_customer_id df) = index df
  ∧ columns (drop_customer_id df) = filter (λ c, c.1 ≠ "CUST_ID") (columns df)
  ∧ getitem (drop_customer_id df) "CUST_ID" = None
  ∧ (∀ col, col ≠ "CUST_ID" → getitem (drop_customer_id df) col = getitem df col)
  ∧ ("CUST_ID" ∉ (columns df).*1 → drop_customer_id df = df).
Proof.
  split_and!.
  - apply drop_customer_id_index.
  - apply drop_customer_id_columns.
  - unfold getitem. rewrite drop_customer_id_columns. apply lookup_col_None.
    intros [[n s] [Hn [Hne _]%list_elem_of_filter]]%list_elem_of_fmap.
    simpl in *. congruence.
  - intros col Hne. unfold getitem. rewrite drop_customer_id_columns.
    by apply lookup_col_filter_ne.
  - intros Hin. unfold drop_customer_id, has_column. by rewrite bool_decide_eq_false_2.
Qed.

Lemma isnull_sum_sum_filter (P : string * Series → Prop) `{∀ c, Decision (P c)} cs :
  (sum_list ((λ c, isnull_sum c.2) <$> filter P cs)
   ≤ sum_list ((λ c, isnull_sum c.2) <$> cs))%nat.
Proof.
  induction cs as [|c cs IH]; [done|]. rewrite fmap_cons. cbn [sum_list].
  destruct (decide (P c)).
  - rewrite filter_cons_True by done. rewrite fmap_cons. cbn [sum_list].
    by apply Nat.add_le_mono.
  - rewrite filter_cons_False by done. etrans; [exact IH|]. apply Nat.le_add_l.
Qed.

Lemma isnull_sum_sum_drop_customer_id df :
  (isnull_sum_sum (drop_customer_id df) ≤ isnull_sum_sum df)%nat.
Proof.
  unfold isnull_sum_sum. rewrite drop_customer_id_columns.
  apply isnull_sum_sum_filter.
Qed.

(** ** The two stages together *)

Lemma preprocess_data_complete df : isnull_sum_sum (preprocess_data df) = 0%nat.
Proof.
  unfold preprocess_data, fallback_fill. case_decide as H; [|lia].
  by apply isnull_sum_sum_fillna_frame.
Qed.

(** Training on what the preprocessing wrote never raises the
    missing-value error: the run goes on to the estimators, on the
    written table less its identifier column, and a completed run reports
    no more samples than the raw table had rows. *)
Theorem train_after_preprocess {Scaler Matrix Model : Type}
    (fit_transform : DataFrame → option (Scaler * Matrix))
    (KMeans_fit : Z → Z → nat → Matrix → option Model)
    (inertia_ : Model → Qc) (df : DataFrame) (k : Z) :
  train_model fit_transform KMeans_fit inertia_ (preprocess_data df) k
  = fit_and_report fit_transform KMeans_fit inertia_
      (drop_customer_id (preprocess_data df)) k
  ∧ train_model fit_transform KMeans_fit inertia_ (preprocess_data df) k
    ≠ Err NaNValuesDetected
  ∧ ∀ out n,
      train_model fit_transform KMeans_fit inertia_ (preprocess_data df) k = Ok out →
      metrics out !! "n_samples" = Some (JInt n) → (n ≤ Z.of_nat (len df))%Z.
Proof.
  assert (train_model fit_transform KMeans_fit inertia_ (preprocess_data df) k
          = fit_and_report fit_transform KMeans_fit inertia_
              (drop_customer_id (preprocess_data df)) k) as Hrun.
  { rewrite train_model_checked. rewrite decide_False; [done|].
    pose proof (isnull_sum_sum_drop_customer_id (preprocess_data df)).
    pose proof (preprocess_data_complete df). lia. }
  split_and!; [done| |].
  - rewrite Hrun. apply fit_and_report_not_NaN.
  - intros out n. rewrite Hrun. unfold fit_and_report.
    destruct (fit_transform _) as [[scaler X]|]; simpl; [|done].
    destruct (KMeans_fit _ _ _ _) as [kmeans|]; simpl; [|done].
    intros [= <-]; simpl. intros [= <-].
    unfold len. rewrite drop_customer_id_index.
    destruct (preprocess_schema df) as [_ Hsub].
    by apply Nat2Z.inj_le, sublist_length.
Qed.

(** ** The counts in the metrics *)

(** A completed run reports as n_samples the number of rows of the table
    it read, and as n_features the number of its columns that are not
    labelled CUST_ID: one less than the table's columns when the
    identifier is there (labels being distinct), all of them when it is
    not. *)
Theorem metrics_counts {Scaler Matrix Model : Type}
    (fit_transform : DataFrame → option (Scaler * Matrix))
    (KMeans_fit : Z → Z → nat → Matrix → option Model)
    (inertia_ : Model → Qc) (df : DataFrame) (k : Z) (out : Trained) :
  train_model fit_transform KMeans_fit inertia_ df k = Ok out →
  ∃ n_features : nat,
    metrics out !! "n_samples" = Some (JInt (Z.of_nat (len df)))
    ∧ metrics out !! "n_features" = Some (JInt (Z.of_nat n_features))
    ∧ n_features = length (filter (λ c, c.1 ≠ "CUST_ID") (columns df))
    ∧ ("CUST_ID" ∉ (columns df).*1 → n_features = n_columns df)
    ∧ (NoDup (columns df).*1 → "CUST_ID" ∈ (columns df).*1 →
         S n_features = n_columns df).
Proof.
  rewrite train_model_checked. case_decide; [done|]. unfold fit_and_report.
  destruct (fit_transform _) as [[scaler X]|]; simpl; [|done].
  destruct (KMeans_fit _ _ _ _) as [kmeans|]; simpl; [|done].
  intros [= <-]; simpl.
  exists (length (filter (λ c, c.1 ≠ "CUST_ID") (columns df))). split_and!.
  - unfold len. by rewrite drop_customer_id_index.
  - unfold n_columns. by rewrite drop_customer_id_columns.
  - done.
  - intros Hin. unfold n_columns. by rewrite filter_label_id.
  - unfold n_columns. generalize (columns df). clear.
    intros cs. induction cs as [|[n s] cs IH]; simpl.
    { by intros _ ?%elem_of_nil. }
    intros [Hn Hnd]%NoDup_cons Hin. destruct (decide (n = "CUST_ID")) as [->|Hne].
    + rewrite filter_cons_False by (simpl; tauto). by rewrite filter_label_id.
    + rewrite filter_cons_True by done. simpl. f_equal. apply IH; [done|].
      apply elem_of_cons in Hin as [?|?]; [congruence|done].
Qed.

Lemma metrics_counts_witness :
  ∃ out n_features,
    train_model Standardizer.fit_transform ClusterFitter.KMeans_fit
      ClusterFitter.inertia cleaned_missing_id 2 = Ok out
    ∧ metrics out !! "n_samples" = Some (JInt 4)
    ∧ metrics out !! "n_features" = Some (JInt (Z.of_nat n_features))
    ∧ S n_features = n_columns cleaned_missing_id.
Proof.
  destruct (train_model Standardizer.fit_transform ClusterFitter.KMeans_fit
              ClusterFitter.inertia cleaned_missing_id 2) as [out|e] eqn:Hrun.
  - destruct (metrics_counts Standardizer.fit_transform ClusterFitter.KMeans_fit
                ClusterFitter.inertia cleaned_missing_id 2 out Hrun)
      as (nf & Hs & Hf & _ & _ & Hid).
    exists out, nf. split_and!; [done|exact Hs|exact Hf|].
    apply Hid.
    + apply (bool_decide_eq_true_1 _). vm_compute. reflexivity.
    + simpl. left.
  - exfalso. vm_compute in Hrun. discriminate Hrun.
Defined.

(** ** The console output of the preprocessing *)

Lemma impute_col_console_step df out col :
  impute_col_console (df, out) col
  = (impute_col df col, out ++ option_list (filled_line (getitem df col) col)).
Proof.
  unfold impute_col_console, impute_col, filled_line.
  destruct (getitem df col) as [s|]; simpl; [|by rewrite app_nil_r].
  case_decide; simpl; [done|by rewrite app_nil_r].
Qed.

Lemma foldl_impute_col_console cols : ∀ df out,
  (foldl impute_col_console (df, out) cols).1 = foldl impute_col df cols.
Proof.
  induction cols as [|c cols IH]; intros df out; cbn [foldl]; [done|].
  rewrite impute_col_console_step. apply IH.
Qed.

Lemma foldl_impute_col_console_out cols : ∀ df out,
  NoDup cols →
  (foldl impute_col_console (df, out) cols).2
  = out ++ omap (λ col, filled_line (getitem df col) col) cols.
Proof.
  induction cols as [|c cols IH]; intros df out Hnd; cbn [foldl].
  { simpl. by rewrite app_nil_r. }
  apply NoDup_cons in Hnd as [Hc Hnd].
  assert (omap (λ col, filled_line (getitem (impute_col df c) col) col) cols
          = omap (λ col, filled_line (getitem df col) col) cols) as Htail.
  { clear IH Hnd. induction cols as [|c' cols IH]; [done|].
    apply not_elem_of_cons in Hc as [Hne Hc]. cbn [omap list_omap].
    rewrite (getitem_impute_col_ne _ _ _ Hne), (IH Hc). done. }
  rewrite impute_col_console_step, (IH _ _ Hnd), Htail, <-app_assoc.
  f_equal. cbn [omap list_omap]. by destruct (filled_line _ _).
Qed.

Lemma select_dtypes_columns_NoDup df :
  NoDup (columns df).*1 → NoDup (select_dtypes_columns numeric_dtypes df).
Proof.
  unfold select_dtypes_columns. intros Hnd.
  eapply sublist_NoDup; [exact Hnd|]. apply fmap_sublist, sublist_filter.
Qed.

(** With distinct labels, the visits by label see the columns
    themselves. *)
Lemma filled_lines_by_column (cs all : list (string * Series)) :
  NoDup all.*1 → cs ⊆ all →
  omap (λ col, filled_line (lookup_col col all) col)
       (filter (λ c, dtype_of c.2 ∈ numeric_dtypes) cs).*1
  = omap (λ c, if decide (dtype_of c.2 ∈ numeric_dtypes)
               then filled_line (Some c.2) c.1 else None) cs.
Proof.
  intros Hnd. induction cs as [|[n s] cs IH]; intros Hsub; [done|].
  assert (cs ⊆ all) as Hsub' by (intros c Hc; apply Hsub; by right).
  assert (lookup_col n all = Some s) as Hlook
    by (apply lookup_col_NoDup; [done|apply Hsub; left]).
  cbn [omap list_omap fst snd]. destruct (decide (dtype_of s ∈ numeric_dtypes)).
  - rewrite filter_cons_True by done. rewrite fmap_cons.
    cbn [omap list_omap fst]. rewrite Hlook, (IH Hsub'). done.
  - rewrite filter_cons_False by done. by rewrite (IH Hsub').
Qed.

Lemma preprocess_data_console_frame written input_path output_path df :
  (preprocess_data_console written input_path output_path df).1
  = if written then Some (preprocess_data df) else None.
Proof.
  unfold preprocess_data_console, preprocess_data, fallback_fill, imputer,
    to_csv_console.
  pose proof (foldl_impute_col_console (select_dtypes_columns numeric_dtypes df) df
    [LoadingData input_path; OriginalShape (len df) (n_columns df);
     MissingValues (isnull_sum_sum df)]) as Hfst.
  destruct (foldl impute_col_console _ _) as [df1 out1]. simpl in Hfst. subst df1.
  case_decide; by destruct written.
Qed.

Lemma preprocess_console_out (written : bool) (input_path output_path : string)
    (df : DataFrame) :
  NoDup (columns df).*1 →
  let cleaned := drop_duplicates (imputer df) in
  (preprocess_data_console written input_path output_path df).2
  = [LoadingData input_path;
     OriginalShape (len df) (n_columns df);
     MissingValues (isnull_sum_sum df)]
    ++ omap (λ c, if decide (dtype_of c.2 ∈ numeric_dtypes ∧ NaN ∈ values c.2)
                  then Some (FilledMissing (isnull_sum c.2) c.1) else None)
            (columns df)
    ++ [RowsAfterDuplicates (len df) (len cleaned);
        MissingAfterCleaning (isnull_sum_sum cleaned)]
    ++ (if decide (0 < isnull_sum_sum cleaned)%nat
        then [WarningFillingZero; FinalMissing 0] else [])
    ++ (if written then [ProcessedSaved output_path] else []).
Proof.
  intros Hnd cleaned. unfold preprocess_data_console, to_csv_console.
  set (out0 := [LoadingData input_path; OriginalShape (len df) (n_columns df);
                MissingValues (isnull_sum_sum df)]).
  pose proof (foldl_impute_col_console
                (select_dtypes_columns numeric_dtypes df) df out0) as Hfst.
  pose proof (foldl_impute_col_console_out _ df out0
                (select_dtypes_columns_NoDup _ Hnd)) as Hsnd.
  destruct (foldl impute_col_console _ _) as [df1 out1]. simpl in Hfst, Hsnd.
  fold (imputer df) in Hfst. subst df1 out1. fold cleaned.
  assert (len (imputer df) = len df) as ->
    by (unfold len; by destruct (imputer_shape df) as (-> & _)).
  unfold select_dtypes_columns, getitem.
  rewrite (filled_lines_by_column _ _ Hnd) by done.
  assert (omap (λ c : string * Series,
                  if decide (dtype_of c.2 ∈ numeric_dtypes)
                  then filled_line (Some c.2) c.1 else None) (columns df)
          = omap (λ c : string * Series,
                    if decide (dtype_of c.2 ∈ numeric_dtypes ∧ NaN ∈ values c.2)
                    then Some (FilledMissing (isnull_sum c.2) c.1) else None)
                 (columns df)) as ->.
  { apply list_omap_ext, Forall2_same_length_lookup_2; [done|].
    intros i c c' Hc Hc'. rewrite Hc in Hc'. injection Hc' as <-.
    unfold filled_line. destruct (decide (dtype_of c.2 ∈ numeric_dtypes)).
    - destruct (decide (0 < isnull_sum c.2)%nat) as [Hm|Hm].
      + rewrite decide_True; [done|]. split; [done|]. by apply isnull_sum_pos.
      + rewrite decide_False; [done|]. intros [_ ?]. by apply Hm, isnull_sum_pos.
    - rewrite decide_False; [done|]. tauto. }
  case_decide.
  - rewrite isnull_sum_sum_fillna_frame by done.
    destruct written; simpl; by rewrite <-?app_assoc, ?app_nil_r.
  - destruct written; simpl; by rewrite <-?app_assoc, ?app_nil_r.
Qed.

(** What a run of the preprocessing prints and leaves, for a table with
    distinct column labels, whether or not the write at the end succeeds.
    The lines are: the path, the shape and the number of missing values
    of the table read; one line for each numeric column that holds a
    missing value, in column order, with the number of its missing
    entries; the number of rows before and after the duplicate removal;
    the number of missing values left; and, when that is not 0, a warning
    and a final count.  The line naming the path written comes last and
    only when the write returned, which is also when the cleaned table is
    in the file; a write that raises leaves every earlier line printed. *)
Theorem preprocess_console_lines (written : bool)
    (input_path output_path : string) (df : DataFrame) :
  NoDup (columns df).*1 →
  let cleaned := drop_duplicates (imputer df) in
  let run := preprocess_data_console written input_path output_path df in
  run.1 = (if written then Some (preprocess_data df) else None)
  ∧ run.2
    = [LoadingData input_path;
       OriginalShape (len df) (n_columns df);
       MissingValues (isnull_sum_sum df)]
      ++ omap (λ c, if decide (dtype_of c.2 ∈ numeric_dtypes ∧ NaN ∈ values c.2)
                    then Some (FilledMissing (isnull_sum c.2) c.1) else None)
              (columns df)
      ++ [RowsAfterDuplicates (len df) (len cleaned);
          MissingAfterCleaning (isnull_sum_sum cleaned)]
      ++ (if decide (0 < isnull_sum_sum cleaned)%nat
          then [WarningFillingZero; FinalMissing 0] else [])
      ++ (if written then [ProcessedSaved output_path] else []).
Proof.
  intros Hnd. split.
  - apply preprocess_data_console_frame.
  - by apply preprocess_console_out.
Qed.

Lemma preprocess_console_lines_witness :
  (preprocess_data_console false "data/CC_GENERAL.csv" "data/processed.csv"
     customers).1 = None
  ∧ (preprocess_data_console false "data/CC_GENERAL.csv" "data/processed.csv"
       customers).2
    = [LoadingData "data/CC_GENERAL.csv"; OriginalShape 3 2; MissingValues 2;
       FilledMissing 1 "BALANCE"; RowsAfterDuplicates 3 3; MissingAfterCleaning 1;
       WarningFillingZero; FinalMissing 0].
Proof.
  destruct (preprocess_console_lines false "data/CC_GENERAL.csv"
              "data/processed.csv" customers) as [H1 H2].
  - apply (bool_decide_eq_true_1 _). vm_compute. reflexivity.
  - split; [exact H1|]. rewrite H2. vm_compute. reflexivity.
Defined.

(** The mean of two neighbouring float64 values is one of them: the row
    the loop completes with it repeats that row, and the duplicate
    removal drops it. *)
Example imputed_row_repeats_a_row :
  (preprocess_data_console true "in.csv" "out.csv" neighbours).1
  = Some (mkFrame [0; 1]%nat
            [("BALANCE"%string,
              mkSeries float64 [Num 1; Num (Q2Qc (1 + pow2 (-52)))])])
  ∧ (preprocess_data_console true "in.csv" "out.csv" neighbours).2
    = [LoadingData "in.csv"; OriginalShape 3 1; MissingValues 1;
       FilledMissing 1 "BALANCE"; RowsAfterDuplicates 3 2;
       MissingAfterCleaning 0; ProcessedSaved "out.csv"].
Proof.
  split.
  - apply (bool_decide_eq_true_1 _). vm_compute. reflexivity.
  - vm_compute. reflexivity.
Qed.

Lemma filled_counts_app out1 out2 :
  filled_counts (out1 ++ out2) = filled_counts out1 ++ filled_counts out2.
Proof. unfold filled_counts. apply omap_app. Qed.

Lemma filled_counts_omap (cs : list (string * Series)) :
  filled_counts
    (omap (λ c, if decide (dtype_of c.2 ∈ numeric_dtypes ∧ NaN ∈ values c.2)
                then Some (FilledMissing (isnull_sum c.2) c.1) else None) cs)
  = omap (λ c, if decide (dtype_of c.2 ∈ numeric_dtypes ∧ NaN ∈ values c.2)
               then Some (c.1, isnull_sum c.2) else None) cs.
Proof.
  unfold filled_counts. induction cs as [|c cs IH]; [done|]. cbn [omap list_omap].
  case_decide; [|done]. cbn [omap list_omap]. by rewrite IH.
Qed.

Lemma filled_counts_out written input_path output_path df :
  NoDup (columns df).*1 →
  filled_counts (preprocess_data_console written input_path output_path df).2
  = omap (λ c, if decide (dtype_of c.2 ∈ numeric_dtypes ∧ NaN ∈ values c.2)
               then Some (c.1, isnull_sum c.2) else None) (columns df).
Proof.
  intros Hnd. rewrite (preprocess_console_out _ _ _ _ Hnd). cbv zeta.
  rewrite !filled_counts_app, filled_counts_omap.
  case_decide; destruct written; simpl; by rewrite app_nil_r.
Qed.

Lemma sum_list_cons x l : sum_list (x :: l) = (x + sum_list l)%nat.
Proof. reflexivity. Qed.

Lemma isnull_sum_impute_series s : isnull_sum (impute_series s) = 0%nat.
Proof.
  unfold impute_series. case_decide; [|lia].
  by rewrite isnull_sum_fillna by apply fill_value_of_notnull.
Qed.

(** Every missing value counted in the table read is accounted for: it
    is among those a "Filled" line reports, each of which reports at least
    one, or it is still there after the loop, in a column the loop does
    not select.  This holds whether or not the write at the end
    succeeds. *)
Theorem preprocess_console_accounting (written : bool)
    (input_path output_path : string) (df : DataFrame) :
  NoDup (columns df).*1 →
  let reported :=
    filled_counts (preprocess_data_console written input_path output_path df).2 in
  isnull_sum_sum df = (sum_list reported.*2 + isnull_sum_sum (imputer df))%nat
  ∧ Forall (λ cn, (0 < cn.2)%nat) reported.
Proof.
  intros Hnd reported. unfold reported. rewrite (filled_counts_out _ _ _ _ Hnd).
  unfold isnull_sum_sum. rewrite (imputer_by_column _ Hnd).
  clear. induction (columns df) as [|[n s] cs [IH1 IH2]]; [by split|].
  rewrite !fmap_cons, !sum_list_cons. cbn [omap list_omap fst snd].
  destruct (decide (dtype_of s ∈ numeric_dtypes ∧ NaN ∈ values s)) as [[Hdt Hnan]|Hno].
  - rewrite decide_True by done. rewrite fmap_cons, sum_list_cons. cbn [snd].
    rewrite isnull_sum_impute_series. split.
    + rewrite IH1. lia.
    + constructor; [simpl; by apply isnull_sum_pos|done].
  - split; [|done]. rewrite IH1.
    enough (isnull_sum
              (if decide (dtype_of s ∈ numeric_dtypes) then impute_series s else s)
            = isnull_sum s) as -> by lia.
    case_decide as Hdt; [|done]. rewrite isnull_sum_impute_series.
    destruct (decide (0 < isnull_sum s)%nat) as [Hpos|?]; [|lia].
    apply isnull_sum_pos in Hpos. tauto.
Qed.

Lemma preprocess_console_accounting_witness :
  let reported :=
    filled_counts (preprocess_data_console true "in.csv" "out.csv" customers).2 in
  isnull_sum_sum customers
  = (sum_list reported.*2 + isnull_sum_sum (imputer customers))%nat
  ∧ Forall (λ cn, (0 < cn.2)%nat) reported.
Proof.
  apply (preprocess_console_accounting true "in.csv" "out.csv" customers).
  apply (bool_decide_eq_true_1 _). vm_compute. reflexivity.
Defined.

(** ** The console output of the training *)

Section train_console_facts.
Context {Scaler Matrix Model : Type}.
Variable fit_transform : DataFrame → option (Scaler * Matrix).
Variable KMeans_fit : Z → Z → nat → Matrix → option Model.
Variable inertia_ : Model → Qc.

Lemma train_model_console_result model_written metrics_written
    input_path model_path metrics_path df k :
  (train_model_console fit_transform KMeans_fit inertia_
     model_written metrics_written input_path model_path metrics_path df k).2
  = (t ← train_model fit_transform KMeans_fit inertia_ df k;
     if model_written && metrics_written then Ok t else Err WriteFailed).
Proof.
  rewrite train_model_checked. unfold train_model_console, fit_and_report.
  fold (drop_customer_id df). case_decide; [done|].
  destruct (fit_transform _) as [[scaler X]|]; simpl; [|done].
  destruct (KMeans_fit _ _ _ _); simpl; [|done].
  by destruct model_written, metrics_written.
Qed.

End train_console_facts.

Lemma columns_with_nan_sum df :
  sum_list (columns_with_nan df).*2 = isnull_sum_sum df.
Proof.
  unfold columns_with_nan, isnull_sum_sum.
  induction (columns df) as [|[n s] cs IH]; [done|].
  rewrite !fmap_cons, sum_list_cons. cbn [fst snd]. rewrite <-IH.
  destruct (decide (0 < isnull_sum s)%nat) as [Hpos|Hpos].
  - rewrite filter_cons_True by done. by rewrite fmap_cons, sum_list_cons.
  - rewrite filter_cons_False by done.
    assert (isnull_sum s = 0%nat) as -> by lia. done.
Qed.

(** When the training raises the missing-value error, it has printed the
    path, the shape of the features, the error line and a report that
    names at least one column, names only columns of the features that
    hold a missing value (so never CUST_ID), each with its count, the
    counts adding up to the total; nothing about training or saving is
    printed.  What the writes would have done plays no part. *)
Theorem train_console_nan_report {Scaler Matrix Model : Type}
    (fit_transform : DataFrame → option (Scaler * Matrix))
    (KMeans_fit : Z → Z → nat → Matrix → option Model)
    (inertia_ : Model → Qc) (model_written metrics_written : bool)
    (input_path model_path metrics_path : string) (df : DataFrame) (k : Z) :
  train_model fit_transform KMeans_fit inertia_ df k = Err NaNValuesDetected →
  ∃ counts,
    train_model_console fit_transform KMeans_fit inertia_
      model_written metrics_written input_path model_path metrics_path df k
    = ([LoadingProcessed input_path;
        TrainingShape (len df) (n_columns (drop_customer_id df));
        ErrorNaN; ColumnsWithNaN counts], Err NaNValuesDetected)
    ∧ counts ≠ []
    ∧ ("CUST_ID" ∉ counts.*1)
    ∧ (∀ col n, (col, n) ∈ counts →
         (0 < n)%nat ∧ ∃ s, (col, s) ∈ columns df ∧ isnull_sum s = n)
    ∧ sum_list counts.*2 = isnull_sum_sum (drop_customer_id df).
Proof.
  rewrite train_model_checked. case_decide as Hnan; [intros _|].
  2: { intros Hf. by apply fit_and_report_not_NaN in Hf. }
  exists (columns_with_nan (drop_customer_id df)).
  assert (∀ col n, (col, n) ∈ columns_with_nan (drop_customer_id df) →
            (0 < n)%nat ∧ col ≠ "CUST_ID"
            ∧ ∃ s, (col, s) ∈ columns df ∧ isnull_sum s = n) as Hin.
  { intros col n. unfold columns_with_nan. rewrite drop_customer_id_columns.
    intros [Hpos [[c s] [[= -> ->] [Hne Hc]%list_elem_of_filter]]%list_elem_of_fmap]%list_elem_of_filter.
    simpl in *. eauto. }
  split_and!.
  - unfold train_model_console. fold (drop_customer_id df).
    rewrite decide_True by done. unfold len. by rewrite drop_customer_id_index.
  - intros Hnil. pose proof (columns_with_nan_sum (drop_customer_id df)) as Hsum.
    rewrite Hnil in Hsum. simpl in Hsum. lia.
  - intros [[col n] [Hcol Hc]]%list_elem_of_fmap. simpl in Hcol. subst col.
    by destruct (Hin _ _ Hc) as (_ & ? & _).
  - intros col n Hc. destruct (Hin _ _ Hc) as (? & _ & ?). done.
  - apply columns_with_nan_sum.
Qed.

Lemma train_console_nan_report_witness :
  ∃ counts,
    train_model_console Standardizer.fit_transform ClusterFitter.KMeans_fit
      ClusterFitter.inertia true true
      "data/processed.csv" "models/model.pkl" "metrics.json" customers 4
    = ([LoadingProcessed "data/processed.csv";
        TrainingShape (len customers) (n_columns (drop_customer_id customers));
        ErrorNaN; ColumnsWithNaN counts], Err NaNValuesDetected)
    ∧ counts ≠ []
    ∧ ("CUST_ID" ∉ counts.*1)
    ∧ (∀ col n, (col, n) ∈ counts →
         (0 < n)%nat ∧ ∃ s, (col, s) ∈ columns customers ∧ isnull_sum s = n)
    ∧ sum_list counts.*2 = isnull_sum_sum (drop_customer_id customers).
Proof.
  apply (train_console_nan_report Standardizer.fit_transform
           ClusterFitter.KMeans_fit ClusterFitter.inertia true true).
  vm_compute. reflexivity.
Defined.

(** The "saved" lines follow the writes.  "Model saved" is printed
    exactly when the estimators went through and the pickle was written;
    "Metrics saved" is printed exactly when the run completes, which takes
    the metrics write as well, and then the two lines come last.  So a
    run whose metrics write raises has already reported the model as
    saved, and a run stopped by the missing-value error, by an estimator
    or by the first write reports nothing as saved. *)
Theorem train_console_saved {Scaler Matrix Model : Type}
    (fit_transform : DataFrame → option (Scaler * Matrix))
    (KMeans_fit : Z → Z → nat → Matrix → option Model)
    (inertia_ : Model → Qc) (model_written metrics_written : bool)
    (input_path model_path metrics_path : string) (df : DataFrame) (k : Z) :
  let run := train_model_console fit_transform KMeans_fit inertia_
               model_written metrics_written
               input_path model_path metrics_path df k in
  let fitted := train_model fit_transform KMeans_fit inertia_ df k in
  run.2 = (t ← fitted;
           if model_written && metrics_written then Ok t else Err WriteFailed)
  ∧ (∀ path, ModelSaved path ∈ run.1
       ↔ path = model_path ∧ (∃ t, fitted = Ok t) ∧ model_written = true)
  ∧ (∀ path, MetricsSaved path ∈ run.1
       ↔ path = metrics_path ∧ ∃ t, run.2 = Ok t)
  ∧ (∀ t, run.2 = Ok t →
       ∃ out, run.1 = out ++ [SamplesAre (len df); ModelSaved model_path;
                              MetricsSaved metrics_path]).
Proof.
  intros run fitted. split; [apply train_model_console_result|].
  unfold run, fitted. rewrite train_model_checked.
  unfold train_model_console, fit_and_report. fold (drop_customer_id df).
  assert (len (drop_customer_id df) = len df) as Hlen
    by (unfold len; by rewrite drop_customer_id_index).
  case_decide;
    [|destruct (fit_transform _) as [[scaler X]|];
      cbn [fst snd mbind result_bind call];
      [destruct (KMeans_fit _ _ _ _) as [kmeans|];
       [destruct model_written, metrics_written|]|]];
    cbn [fst snd mbind result_bind call andb app]; split_and!;
    try (intros path; rewrite ?elem_of_app, !elem_of_cons, ?elem_of_nil;
         split; [intros Hin|intros Hr]).
  all: try done.
  all: try (by repeat (destruct Hin as [Hin|Hin]; try done)).
  all: try (by destruct Hr as (_ & [t Ht] & ?)).
  all: try (by destruct Hr as (_ & [t Ht])).
  all: try (repeat (destruct Hin as [Hin|Hin]; try done);
            injection Hin as ->; by eauto).
  all: try (destruct Hr as [-> _]; by repeat first [left; reflexivity|right]).
  intros t _. rewrite Hlen. by eexists [_; _; _; _; _].
Qed.

(** On the sample table with the sample estimators: when the metrics
    write raises, the run fails after it has reported the model as
    saved. *)
Example train_console_metrics_write_fails :
  ∃ out,
    train_model_console Standardizer.fit_transform ClusterFitter.KMeans_fit
      ClusterFitter.inertia true false
      "data/processed.csv" "models/model.pkl" "metrics.json"
      cleaned_missing_id 2
    = (out ++ [ModelSaved "models/model.pkl"], Err WriteFailed).
Proof. eexists [_; _; _; _; _; _]. vm_compute. reflexivity. Qed.
